(** * repoze.catalog.query: query algebra, expression compiler, optimizer

    A shallow embedding of [src/repoze/catalog/query.py].  Python objects
    are first-order data: a query tree is an inductive type, exceptions are
    values of [exn] carried by [result], the catalog and the name table are
    finite maps, and the index collaborators are state transformers over an
    arbitrary collaborator state. *)

From Stdlib Require Import ZArith String List Bool Lia.
From stdpp Require Import base option gmap strings list.

Import ListNotations.
Local Open Scope string_scope.
Local Open Scope list_scope.

(** ** Data model *)

(** The comparator classes of the module ([class Eq(Comparator)], ...). *)
Inductive cmp_kind : Type :=
  | KContains | KEq | KNotEq | KGt | KLt | KGe | KLe | KAny | KAll.

(** The operator classes ([class Union(Operator)], ...). *)
Inductive op_kind : Type :=
  | KUnion | KIntersection | KDifference.

#[local] Set Warnings "-register-all".

(** Python values that flow through the module.  [PName id] is an
    [ast.Name] node (what [process_Name] returns), [PCmpClass]/[POpClass]
    are the class objects returned by [process_Eq], [process_BitOr], ...,
    and [PQuery] is an instance of a [Query] subclass.  A comparator holds
    its index name as a string and an arbitrary value; an operator holds
    its two children. *)
Inductive pyval : Type :=
  | PNone
  | PName (id : string)
  | PStr (s : string)
  | PNum (n : Z)
  | PList (l : list pyval)
  | PTuple (l : list pyval)
  | PCmpClass (k : cmp_kind)
  | POpClass (k : op_kind)
  | PQuery (q : Query)
with Query : Type :=
  | Comparator (k : cmp_kind) (index_name : string) (value : pyval)
  | Operator (k : op_kind) (left right : Query).

Abbreviation Contains := (Comparator KContains).
Abbreviation Eq := (Comparator KEq).
Abbreviation NotEq := (Comparator KNotEq).
Abbreviation Gt := (Comparator KGt).
Abbreviation Lt := (Comparator KLt).
Abbreviation Ge := (Comparator KGe).
Abbreviation Le := (Comparator KLe).
Abbreviation Any := (Comparator KAny).
Abbreviation All := (Comparator KAll).
Abbreviation Union := (Operator KUnion).
Abbreviation Intersection := (Operator KIntersection).
Abbreviation Difference := (Operator KDifference).

#[global] Instance cmp_kind_eq_dec : EqDecision cmp_kind.
Proof. solve_decision. Defined.

#[global] Instance op_kind_eq_dec : EqDecision op_kind.
Proof. solve_decision. Defined.

(** ** Tree optimizer: [_group_any_and_all] *)

Module Optimizer.

(** The inner function [group(node, index_name, values)].  [index_name] is
    [None] or a string.  With more than one value the index is never
    [None] (lemma [visit_None_values] below), so the [None] row of the
    first match is never reached by [_group_any_and_all]. *)
Definition group (node : Query) (index_name : option string)
    (values : list pyval) : Query :=
  if (1 <? length values)%nat then
    match index_name, node with
    | Some i, Operator KIntersection _ _ => All i (PList values)
    | Some i, Operator KUnion _ _ => Any i (PList values)
    | _, _ => node
    end
  else node.

(** The inner function [visit(node)].  The source returns the pair
    [(index, values)] and rewrites [node.left]/[node.right] in place; here
    the rewritten node is returned as a first component. *)
Fixpoint visit (node : Query) : Query * option string * list pyval :=
  match node with
  | Operator k l r =>
      let '(l', left_index, left_values) := visit l in
      let '(r', right_index, right_values) := visit r in
      if negb (bool_decide (left_index = right_index)) then
        (Operator k (group l' left_index left_values)
                    (group r' right_index right_values), None, [])
      else
        (Operator k l' r', left_index, left_values ++ right_values)
  | Comparator KEq index_name value => (node, Some index_name, [value])
  | Comparator _ _ _ => (node, None, [])
  end.

Definition _group_any_and_all (tree : Query) : Query :=
  let '(tree', index, values) := visit tree in
  group tree' index values.

End Optimizer.

Import Optimizer.

(** ** Exceptions *)

(** The exception classes the module raises or lets through.  [SyntaxError]
    is what [ast.parse] raises on text that is not Python; [OtherError]
    stands for whatever an index collaborator may raise. *)
Inductive exn : Type :=
  | TypeError (msg : string)
  | ValueError (msg : string)
  | NameError (name : string)
  | KeyError (key : string)
  | IndexError (msg : string)
  | AttributeError (msg : string)
  | SyntaxError (msg : string)
  | OtherError (msg : string).

Inductive result (A : Type) : Type :=
  | Ok (a : A)
  | Raise (e : exn).

Arguments Ok {A} a.
Arguments Raise {A} e.

#[global] Instance result_ret : MRet result := fun A a => Ok a.

#[global] Instance result_bind : MBind result := fun A B f m =>
  match m with
  | Ok a => f a
  | Raise e => Raise e
  end.

#[global] Instance result_fmap : FMap result := fun A B f m =>
  match m with
  | Ok a => Ok (f a)
  | Raise e => Raise e
  end.

(** ** Combinator operators of [Query] *)

Module Combinators.

Definition class_name_of_cmp (k : cmp_kind) : string :=
  match k with
  | KContains => "Contains" | KEq => "Eq" | KNotEq => "NotEq"
  | KGt => "Gt" | KLt => "Lt" | KGe => "Ge" | KLe => "Le"
  | KAny => "Any" | KAll => "All"
  end.

Definition class_name_of_op (k : op_kind) : string :=
  match k with
  | KUnion => "Union" | KIntersection => "Intersection"
  | KDifference => "Difference"
  end.

(** [str(type(v))] as Python 2 prints it, which is what [%s] gives in
    [_check_type].  [PNum] is a Python [int]. *)
Definition type_repr (v : pyval) : string :=
  match v with
  | PNone => "<type 'NoneType'>"
  | PName _ => "<class '_ast.Name'>"
  | PStr _ => "<type 'str'>"
  | PNum _ => "<type 'int'>"
  | PList _ => "<type 'list'>"
  | PTuple _ => "<type 'tuple'>"
  | PCmpClass _ | POpClass _ => "<type 'type'>"
  | PQuery (Comparator k _ _) =>
      "<class 'repoze.catalog.query." ++ class_name_of_cmp k ++ "'>"
  | PQuery (Operator k _ _) =>
      "<class 'repoze.catalog.query." ++ class_name_of_op k ++ "'>"
  end.

(** [isinstance(v, Query)] *)
Definition is_Query (v : pyval) : bool :=
  match v with PQuery _ => true | _ => false end.

(** [Query._check_type(self, operator, operand)].  The source returns
    nothing when [isinstance(operand, Query)] holds; here the operand is
    handed back at type [Query], which is what the caller then uses. *)
Definition _check_type (self : Query) (operator : string) (operand : pyval)
    : result Query :=
  match operand with
  | PQuery q => Ok q
  | _ =>
      Raise (TypeError
               ("TypeError: unsupported operand types for " ++ operator
                ++ ": " ++ type_repr (PQuery self) ++ " "
                ++ type_repr operand))
  end.

Definition __and__ (self : Query) (right : pyval) : result Query :=
  r ← _check_type self "set intersection" right;
  Ok (Intersection self r).

Definition __or__ (self : Query) (right : pyval) : result Query :=
  r ← _check_type self "set union" right;
  Ok (Union self r).

Definition __sub__ (self : Query) (right : pyval) : result Query :=
  r ← _check_type self "set difference" right;
  Ok (Difference self r).

End Combinators.

(** ** The weighted-set primitive ([BTrees.family32.IF]) *)

(** The operations of the weighted-set collaborator that the module calls.
    The collaborator itself is outside the module, so the evaluation
    functions below take it as a parameter. *)
Record Family : Type := {
  IFSet : Type;
  weight : Type;
  len : IFSet -> nat;                                   (* len(s) *)
  IF_Set : IFSet;                                       (* family.IF.Set() *)
  weightedUnion : IFSet -> IFSet -> weight * IFSet;
  weightedIntersection : IFSet -> IFSet -> weight * IFSet;
  difference : IFSet -> IFSet -> IFSet
}.

(** ** Evaluation: [apply] of every node class, and [SearchQuery] *)

Section Evaluation.

Context {S : Type} (F : Family).

(** Index calls may change the collaborator's state [S] (for instance a
    record of the calls made) and may raise. *)
Definition M (A : Type) : Type := S -> S * result A.

#[local] Instance M_ret : MRet M := fun A a s => (s, Ok a).

#[local] Instance M_bind : MBind M := fun A B f m s =>
  match m s with
  | (s', Ok a) => f a s'
  | (s', Raise e) => (s', Raise e)
  end.

(** An index: [index k v] is the call [index.applyEq(v)],
    [index.applyContains(v)], ... for the comparator class [k]. *)
Definition Index : Type := cmp_kind -> pyval -> M (IFSet F).

(** [Comparator.get_index]: [catalog[self.index_name]]. *)
Definition get_index (index_name : string) (catalog : gmap string Index)
    : M Index :=
  fun s =>
    match catalog !! index_name with
    | Some index => (s, Ok index)
    | None => (s, Raise (KeyError index_name))
    end.

(** [bool(res)] of a result set: non-empty. *)
Definition truth (res : IFSet F) : bool := negb (len F res =? 0)%nat.

(** The [apply(self, catalog)] methods of the comparator and operator
    classes. *)
Fixpoint apply (q : Query) (catalog : gmap string Index) : M (IFSet F) :=
  match q with
  | Comparator k index_name value =>
      index ← get_index index_name catalog;
      index k value
  | Operator KUnion l r =>
      left ← apply l catalog;
      right ← apply r catalog;
      mret (weightedUnion F left right).2
  | Operator KIntersection l r =>
      left ← apply l catalog;
      if (len F left =? 0)%nat then mret (IF_Set F)
      else
        right ← apply r catalog;
        if (len F right =? 0)%nat then mret (IF_Set F)
        else mret (weightedIntersection F left right).2
  | Operator KDifference l r =>
      left ← apply l catalog;
      if (len F left =? 0)%nat then mret (IF_Set F)
      else
        right ← apply r catalog;
        if (len F right =? 0)%nat then mret left
        else mret (difference F left right)
  end.

(** The state of a [SearchQuery] object. *)
Record SearchQuery : Type := {
  catalog : gmap string Index;
  _results : option (IFSet F)
}.

(** The [results] property: getter and setter. *)
Definition results (self : SearchQuery) : IFSet F :=
  match _results self with
  | None => IF_Set F
  | Some r => r
  end.

Definition set_results (self : SearchQuery) (r : IFSet F) : SearchQuery :=
  {| catalog := catalog self; _results := Some r |}.

(** [SearchQuery.__init__(catalog, query)]. *)
Definition __init__ (c : gmap string Index) (query : option Query)
    : M SearchQuery :=
  match query with
  | Some q =>
      res ← apply q c;
      mret {| catalog := c; _results := Some res |}
  | None => mret {| catalog := c; _results := None |}
  end.

Definition Or (self : SearchQuery) (query : Query) : M SearchQuery :=
  res ← apply query (catalog self);
  if truth res then
    if (len F (results self) =? 0)%nat then mret (set_results self res)
    else mret (set_results self (weightedUnion F (results self) res).2)
  else mret self.

Definition And (self : SearchQuery) (query : Query) : M SearchQuery :=
  if (len F (results self) =? 0)%nat then mret self
  else
    res ← apply query (catalog self);
    if truth res then
      mret (set_results self (weightedIntersection F (results self) res).2)
    else mret (set_results self (IF_Set F)).

Definition Not (self : SearchQuery) (query : Query) : M SearchQuery :=
  if (len F (results self) =? 0)%nat then mret self
  else
    res ← apply query (catalog self);
    if truth res then
      mret (set_results self (difference F (results self) res))
    else mret self.

End Evaluation.

Arguments catalog {S F} _.
Arguments _results {S F} _.

(** ** Expression compiler: [_AstQuery] and [parse_query] *)

(** The nodes of Python's [ast] module, with the fields that
    [ast.iter_child_nodes] walks and the attributes the processors read.
    The classes without fields are constructors without arguments;
    [Other] is any other node class (Call, Attribute, Add, Assign, ...). *)
Module ast.

Inductive node : Type :=
  | Expr (value : node)
  | Name (id : string) (ctx : node)
  | Str (s : string)
  | Num (n : Z)
  | List (elts : list node) (ctx : node)
  | Tuple (elts : list node) (ctx : node)
  | Compare (left : node) (ops : list node) (comparators : list node)
  | BinOp (left op right : node)
  | BoolOp (op : node) (values : list node)
  | Load
  | Eq | NotEq | Lt | LtE | Gt | GtE | In
  | BitOr | BitAnd | Sub
  | Or | And
  | Other (class_name : string) (children : list node).

(** [node.__class__.__name__] *)
Definition class_name (n : node) : string :=
  match n with
  | Expr _ => "Expr" | Name _ _ => "Name" | Str _ => "Str" | Num _ => "Num"
  | List _ _ => "List" | Tuple _ _ => "Tuple" | Compare _ _ _ => "Compare"
  | BinOp _ _ _ => "BinOp" | BoolOp _ _ => "BoolOp" | Load => "Load"
  | Eq => "Eq" | NotEq => "NotEq" | Lt => "Lt" | LtE => "LtE"
  | Gt => "Gt" | GtE => "GtE" | In => "In"
  | BitOr => "BitOr" | BitAnd => "BitAnd" | Sub => "Sub"
  | Or => "Or" | And => "And"
  | Other name _ => name
  end.

(** [list(ast.iter_child_nodes(n))]: the node-valued fields in the order
    of [_fields]. *)
Definition iter_child_nodes (n : node) : list node :=
  match n with
  | Expr value => [value]
  | Name _ ctx => [ctx]
  | List elts ctx | Tuple elts ctx => elts ++ [ctx]
  | Compare l ops comparators => l :: ops ++ comparators
  | BinOp l op r => [l; op; r]
  | BoolOp op values => op :: values
  | Other _ children => children
  | _ => []
  end.

End ast.

Module Compiler.

Import Combinators.

Section AstQuery.

(** [self.names] *)
Variable names : gmap string pyval.

Definition _index_name (node : pyval) : result string :=
  match node with
  | PName id => Ok id
  | _ => Raise (ValueError "Index name must be a name.")
  end.

Definition _value (node : pyval) : result pyval :=
  match node with
  | PName id =>
      match names !! id with
      | Some v => Ok v
      | None => Raise (NameError id)
      end
  | _ => Ok node
  end.

(** [operator.__name__] for the value a processor received as operator. *)
Definition __name__ (operator : pyval) : result string :=
  match operator with
  | PCmpClass k => Ok (class_name_of_cmp k)
  | POpClass k => Ok (class_name_of_op k)
  | _ => Raise (AttributeError "object has no attribute '__name__'")
  end.

(** [operator(a, b)] where [operator] is a comparator class. *)
Definition call_comparator (operator : pyval) (index_name : string)
    (value : pyval) : result pyval :=
  match operator with
  | PCmpClass k => Ok (PQuery (Comparator k index_name value))
  | POpClass _ => Raise (TypeError "operator class called on a comparison")
  | _ => Raise (TypeError "object is not callable")
  end.

(** [operator(l, r)] where [operator] is an operator class and both
    arguments have passed [isinstance(_, Query)]. *)
Definition call_operator (operator : pyval) (l r : Query) : result Query :=
  match operator with
  | POpClass k => Ok (Operator k l r)
  | PCmpClass _ => Raise (TypeError "comparator class called on result sets")
  | _ => Raise (TypeError "object is not callable")
  end.

(** The loop of [process_List]: every [ast.Name] element is replaced by
    its value. *)
Fixpoint resolve_names (l : list pyval) : result (list pyval) :=
  match l with
  | [] => Ok []
  | x :: xs =>
      x' ← (match x with PName _ => _value x | _ => Ok x end);
      xs' ← resolve_names xs;
      Ok (x' :: xs')
  end.

Definition process_List (children : list pyval) : result (list pyval) :=
  resolve_names (removelast children).

Definition process_Compare (children : list pyval) : result pyval :=
  match children with
  | [operand1; operator; operand2] =>
      match operator with
      | PCmpClass KContains =>
          i ← _index_name operand2;
          v ← _value operand1;
          call_comparator operator i v
      | _ =>
          i ← _index_name operand1;
          v ← _value operand2;
          call_comparator operator i v
      end
  | _ => Raise (ValueError "wrong number of values to unpack")
  end.

Definition process_BinOp (children : list pyval) : result pyval :=
  match children with
  | [l; operator; r] =>
      match l, r with
      | PQuery lq, PQuery rq =>
          q ← call_operator operator lq rq;
          Ok (PQuery q)
      | PQuery _, _ =>
          n ← __name__ operator;
          Raise (ValueError ("Bad expression: right operand for " ++ n
                             ++ " must be a result set."))
      | _, _ =>
          n ← __name__ operator;
          Raise (ValueError ("Bad expression: left operand for " ++ n
                             ++ " must be a result set."))
      end
  | _ => Raise (ValueError "wrong number of values to unpack")
  end.

(** The operands of a [BoolOp] at type [Query], when every one of them
    passes [isinstance(child, Query)]. *)
Fixpoint as_queries (children : list pyval) : option (list Query) :=
  match children with
  | [] => Some []
  | PQuery q :: rest => cons q <$> as_queries rest
  | _ :: _ => None
  end.

(** [while children: op = operator(op, children.pop(0))] *)
Fixpoint fold_operator (operator : pyval) (op : Query) (children : list Query)
    : result Query :=
  match children with
  | [] => Ok op
  | c :: rest =>
      op' ← call_operator operator op c;
      fold_operator operator op' rest
  end.

Definition process_BoolOp (children : list pyval) : result pyval :=
  match children with
  | [] => Raise (IndexError "pop from empty list")
  | operator :: children =>
      match as_queries children with
      | None =>
          n ← __name__ operator;
          Raise (ValueError ("Bad expression: All operands for " ++ n
                             ++ " must be result sets."))
      | Some (a :: b :: rest) =>
          op ← call_operator operator a b;
          op ← fold_operator operator op rest;
          Ok (PQuery op)
      | Some _ => Raise (IndexError "pop from empty list")
      end
  end.

(** [getattr(self, 'process_%s' % node.__class__.__name__, None)] applied
    to [(node, children)]; [None] when the class has no processor. *)
Definition process (n : ast.node) (children : list pyval)
    : option (result pyval) :=
  match n with
  | ast.Load => Some (Ok PNone)
  | ast.Name id _ => Some (Ok (PName id))
  | ast.Str s => Some (Ok (PStr s))
  | ast.Num n => Some (Ok (PNum n))
  | ast.List _ _ => Some (PList <$> process_List children)
  | ast.Tuple _ _ => Some (PTuple <$> process_List children)
  | ast.Eq => Some (Ok (PCmpClass KEq))
  | ast.NotEq => Some (Ok (PCmpClass KNotEq))
  | ast.Lt => Some (Ok (PCmpClass KLt))
  | ast.LtE => Some (Ok (PCmpClass KLe))
  | ast.Gt => Some (Ok (PCmpClass KGt))
  | ast.GtE => Some (Ok (PCmpClass KGe))
  | ast.In => Some (Ok (PCmpClass KContains))
  | ast.Compare _ _ _ => Some (process_Compare children)
  | ast.BitOr => Some (Ok (POpClass KUnion))
  | ast.BitAnd => Some (Ok (POpClass KIntersection))
  | ast.Sub => Some (Ok (POpClass KDifference))
  | ast.BinOp _ _ _ => Some (process_BinOp children)
  | ast.Or => Some (Ok (POpClass KUnion))
  | ast.And => Some (Ok (POpClass KIntersection))
  | ast.BoolOp _ _ => Some (process_BoolOp children)
  | ast.Expr _ | ast.Other _ _ => None
  end.

Definition dispatch (n : ast.node) (children : list pyval) : result pyval :=
  match process n children with
  | Some r => r
  | None =>
      Raise (ValueError
               ("Unable to parse expression.  Unhandled expression element: "
                ++ ast.class_name n))
  end.

(** The inner function [visit(node)] of [walk]: the children are visited
    first, left to right, then the node's processor is looked up and
    called.  The match computes [[visit(child) for child in
    ast.iter_child_nodes(node)]] field by field (lemma [visit_unfold]). *)
Fixpoint visit (n : ast.node) : result pyval :=
  let fix visit_all (l : list ast.node) : result (list pyval) :=
    match l with
    | [] => Ok []
    | c :: cs => x ← visit c; xs ← visit_all cs; Ok (x :: xs)
    end in
  children ←
    match n with
    | ast.Expr value => x ← visit value; Ok [x]
    | ast.Name _ ctx => x ← visit ctx; Ok [x]
    | ast.List elts ctx | ast.Tuple elts ctx =>
        xs ← visit_all elts; x ← visit ctx; Ok (xs ++ [x])
    | ast.Compare l ops comparators =>
        x ← visit l; os ← visit_all ops; ys ← visit_all comparators;
        Ok (x :: os ++ ys)
    | ast.BinOp l op r =>
        x ← visit l; o ← visit op; y ← visit r; Ok [x; o; y]
    | ast.BoolOp op values =>
        o ← visit op; xs ← visit_all values; Ok (o :: xs)
    | ast.Other _ children => visit_all children
    | _ => Ok []
    end;
  dispatch n children.

Definition walk (tree : ast.node) : result pyval := visit tree.

(** [[visit(child) for child in l]] *)
Fixpoint visit_list (l : list ast.node) : result (list pyval) :=
  match l with
  | [] => Ok []
  | c :: cs => x ← visit c; xs ← visit_list cs; Ok (x :: xs)
  end.

(** [ast.parse(expr).body]: Python's own parser, a parameter here. *)
Variable ast_parse : string -> result (list ast.node).

(** [_AstQuery.__init__]; the result is the attribute [query]. *)
Definition _AstQuery (expr : string) : result pyval :=
  statements ← ast_parse expr;
  if (1 <? length statements)%nat then
    Raise (ValueError "Can only process single expression.")
  else
    match statements with
    | [] => Raise (IndexError "list index out of range")
    | ast.Expr value :: _ => walk value
    | _ :: _ => Raise (ValueError "Not an expression.")
    end.

End AstQuery.

(** [parse_query(expr, names=None)].  [_group_any_and_all] leaves a value
    that is neither an [Operator] nor an [Eq] as it is, which covers the
    values that are not queries at all. *)
Definition default_names (names : option (gmap string pyval))
    : gmap string pyval :=
  match names with None => ∅ | Some d => d end.

Definition parse_query (ast_parse : string -> result (list ast.node))
    (expr : string) (names : option (gmap string pyval)) : result pyval :=
  let names := default_names names in
  query ← _AstQuery names ast_parse expr;
  Ok (match query with
      | PQuery q => PQuery (_group_any_and_all q)
      | v => v
      end).

End Compiler.

(** ** Specification-side notions for the optimizer *)

(** Every leaf of [t] is [Eq] on the index [i] (operators of any kind). *)
Fixpoint all_eq_on (i : string) (t : Query) : bool :=
  match t with
  | Comparator KEq j _ => bool_decide (i = j)
  | Comparator _ _ _ => false
  | Operator _ l r => all_eq_on i l && all_eq_on i r
  end.

(** [t] is built from [Eq] leaves on [i] joined only by operators of
    kind [k]. *)
Fixpoint eq_run (k : op_kind) (i : string) (t : Query) : bool :=
  match t with
  | Comparator KEq j _ => bool_decide (i = j)
  | Comparator _ _ _ => false
  | Operator k' l r => bool_decide (k = k') && eq_run k i l && eq_run k i r
  end.

(** The values of the leaves, left to right (depth first). *)
Fixpoint leaf_values (t : Query) : list pyval :=
  match t with
  | Comparator _ _ v => [v]
  | Operator _ l r => leaf_values l ++ leaf_values r
  end.

(** ** The weighted-set primitive as the specification describes it *)

Module WeightedSet.

(** Modelled from the spec: the weighted-set primitive
    ([BTrees.family32.IF]) is a collaborator outside the module's source.
    A result set is a duplicate-free collection of (document id, weight)
    pairs in ascending order of document id. *)
Definition t : Type := list (Z * Z).

Definition doc_ids (s : t) : list Z := map fst s.

Definition mem (d : Z) (s : t) : bool := existsb (Z.eqb d) (doc_ids s).

Fixpoint weight_of (d : Z) (s : t) : option Z :=
  match s with
  | [] => None
  | (d', w) :: rest => if (d =? d')%Z then Some w else weight_of d rest
  end.

(** Modelled from the spec: [difference] of the weighted-set primitive,
    "left minus any document id present in right, weights from left
    unchanged". *)
Definition difference (l r : t) : t :=
  List.filter (fun p => negb (mem p.1 r)) l.

(** Modelled from the spec: [weighted_intersection] of the weighted-set
    primitive, "documents in both, weights combined" (by the default
    policy, addition). *)
Fixpoint intersection (l r : t) : t :=
  match l with
  | [] => []
  | (d, w) :: rest =>
      match weight_of d r with
      | Some w' => (d, (w + w')%Z) :: intersection rest r
      | None => intersection rest r
      end
  end.

Fixpoint insert (d w : Z) (s : t) : t :=
  match s with
  | [] => [(d, w)]
  | (d', w') :: rest =>
      if (d <? d')%Z then (d, w) :: s
      else if (d =? d')%Z then (d, (w + w')%Z) :: rest
      else (d', w') :: insert d w rest
  end.

(** Modelled from the spec: [weighted_union] of the weighted-set
    primitive, "a document present in only one operand keeps that
    operand's weight; a document present in both accumulates combined
    weight". *)
Definition union (l r : t) : t :=
  fold_right (fun p acc => insert p.1 p.2 acc) r l.

(** Modelled from the spec: the collaborator's interface ([len],
    [empty_set()], [weighted_union], [weighted_intersection],
    [difference]); the first component of the weighted merges, which the
    module discards, is 1. *)
Definition family : Family :=
  Build_Family t Z (@length (Z * Z)) []
    (fun l r => (1%Z, union l r))
    (fun l r => (1%Z, intersection l r))
    difference.

End WeightedSet.

(** ** A collaborator that records whether it was invoked *)

Module Recording.

(** One index call: index name, comparator class, value. *)
Definition call : Type := string * cmp_kind * pyval.

(** An index that appends every call to the log and answers from a
    table. *)
Definition index (F : Family) (name : string)
    (answer : cmp_kind -> pyval -> IFSet F) : @Index (list call) F :=
  fun k v log => (log ++ [(name, k, v)], Ok (answer k v)).

(** A sample index over [WeightedSet.family]: the documents holding the
    number [n] under [applyEq]; nothing for any other call. *)
Definition sample_answer (k : cmp_kind) (v : pyval) : WeightedSet.t :=
  match k, v with
  | KEq, PNum 1 => [(1, 1); (2, 1); (3, 1)]%Z
  | KEq, PNum 2 => [(2, 1); (3, 1); (4, 1)]%Z
  | KEq, PNum 3 => [(3, 1)]%Z
  | _, _ => []
  end.

Definition sample_catalog : gmap string (@Index (list call) WeightedSet.family) :=
  {[ "idx" := index WeightedSet.family "idx" sample_answer ]}.

(** An accumulator without results, and one holding documents 1, 2, 3. *)
Definition sample_empty : @SearchQuery (list call) WeightedSet.family :=
  {| catalog := sample_catalog; _results := None |}.

Definition sample_full : @SearchQuery (list call) WeightedSet.family :=
  {| catalog := sample_catalog;
     _results := Some [(1, 1); (2, 1); (3, 1)]%Z |}.

End Recording.

(** ** What Python's parser answers on the expressions used below *)

Module Samples.

Definition name (id : string) : ast.node := ast.Name id ast.Load.

Definition compare (l op r : ast.node) : ast.node := ast.Compare l [op] [r].

(** [ast.parse(expr).body] for a few expressions, as Python 2 answers;
    every text outside the table is answered like text that is not
    Python. *)
Definition sample_parse (expr : string) : result (list ast.node) :=
  if String.eqb expr "idx == 'x'" then
    Ok [ast.Expr (compare (name "idx") ast.Eq (ast.Str "x"))]
  else if String.eqb expr "idx1 == 1 and idx2 == 2" then
    Ok [ast.Expr
          (ast.BoolOp ast.And
             [compare (name "idx1") ast.Eq (ast.Num 1);
              compare (name "idx2") ast.Eq (ast.Num 2)])]
  else if String.eqb expr "'v' in idx" then
    Ok [ast.Expr (compare (ast.Str "v") ast.In (name "idx"))]
  else if String.eqb expr "idx == 1; idx2 == 2" then
    Ok [ast.Expr (compare (name "idx") ast.Eq (ast.Num 1));
        ast.Expr (compare (name "idx2") ast.Eq (ast.Num 2))]
  else if String.eqb expr "idx = 1" then
    Ok [ast.Other "Assign"
          [ast.Name "idx" (ast.Other "Store" []); ast.Num 1]]
  else if String.eqb expr "1 == 2" then
    Ok [ast.Expr (compare (ast.Num 1) ast.Eq (ast.Num 2))]
  else if String.eqb expr "1 + 1 == 2" then
    Ok [ast.Expr
          (compare (ast.BinOp (ast.Num 1) (ast.Other "Add" []) (ast.Num 1))
             ast.Eq (ast.Num 2))]
  else if String.eqb expr "a == 1 and (a == 2 or a == 3)" then
    Ok [ast.Expr
          (ast.BoolOp ast.And
             [compare (name "a") ast.Eq (ast.Num 1);
              ast.BoolOp ast.Or
                [compare (name "a") ast.Eq (ast.Num 2);
                 compare (name "a") ast.Eq (ast.Num 3)]])]
  else Raise (SyntaxError "invalid syntax").

End Samples.

(** ** Specification-side notions for the compiler *)

(** The operators of the ordinary comparisons: [==], [!=], [<], [<=],
    [>], [>=]. *)
Definition ordinary_op (op : ast.node) : bool :=
  match op with
  | ast.Eq | ast.NotEq | ast.Lt | ast.LtE | ast.Gt | ast.GtE => true
  | _ => false
  end.

(** A bare name. *)
Definition is_Name (n : ast.node) : bool :=
  match n with ast.Name _ _ => true | _ => false end.

(** ** More of what Python's parser answers *)

Module MoreSamples.

Import Samples.

(** A name table binding [x] to 5. *)
Definition sample_names : gmap string pyval := {[ "x" := PNum 5 ]}.

(** [ast.parse(expr).body] for a few more expressions, as Python 2
    answers; every text outside the table is answered like text that is
    not Python. *)
Definition more_parse (expr : string) : result (list ast.node) :=
  if String.eqb expr "" then Ok []
  else if String.eqb expr "'abc'" then Ok [ast.Expr (ast.Str "abc")]
  else if String.eqb expr "idx" then Ok [ast.Expr (name "idx")]
  else if String.eqb expr "a == 1 or a == 'b' or a == 3" then
    Ok [ast.Expr
          (ast.BoolOp ast.Or
             (map (fun n => ast.Compare (ast.Name "a" ast.Load) [ast.Eq] [n])
                [ast.Num 1; ast.Str "b"; ast.Num 3]))]
  else Raise (SyntaxError "invalid syntax").

End MoreSamples.

(** ** Further notions used to state properties of the code *)

(** Some leaf of [t] is an [Eq]. *)
Fixpoint has_eq (t : Query) : bool :=
  match t with
  | Comparator KEq _ _ => true
  | Comparator _ _ _ => false
  | Operator _ l r => has_eq l || has_eq r
  end.

(** The (index name, value) pairs a tree tests, left to right; a batched
    comparator counts for the values of its list. *)
Fixpoint flat_values (t : Query) : list (string * pyval) :=
  match t with
  | Comparator KAll i (PList vs) | Comparator KAny i (PList vs) =>
      map (pair i) vs
  | Comparator _ i v => [(i, v)]
  | Operator _ l r => flat_values l ++ flat_values r
  end.

(** The index names of the leaves, left to right. *)
Fixpoint index_names (t : Query) : list string :=
  match t with
  | Comparator _ i _ => [i]
  | Operator _ l r => index_names l ++ index_names r
  end.

(** The leftmost leaf. *)
Fixpoint leftmost (t : Query) : Query :=
  match t with
  | Operator _ l _ => leftmost l
  | Comparator _ _ _ => t
  end.

Definition index_name_of (t : Query) : string :=
  match leftmost t with
  | Comparator _ i _ => i
  | Operator _ _ _ => ""
  end.

(** The path from the root to the leftmost leaf goes through
    [Intersection] and [Difference] nodes only. *)
Fixpoint short_spine (t : Query) : bool :=
  match t with
  | Comparator _ _ _ => true
  | Operator KUnion _ _ => false
  | Operator _ l _ => short_spine l
  end.

(** All operators of the tree are [Union]. *)
Fixpoint only_union (t : Query) : bool :=
  match t with
  | Comparator _ _ _ => true
  | Operator KUnion l r => only_union l && only_union r
  | Operator _ _ _ => false
  end.

(** The index calls of the leaves, left to right. *)
Fixpoint leaf_calls (t : Query) : list Recording.call :=
  match t with
  | Comparator k i v => [(i, k, v)]
  | Operator _ l r => leaf_calls l ++ leaf_calls r
  end.

(** Every index of the catalog records its calls under its own name. *)
Definition all_recording (F : Family)
    (c : gmap string (@Index (list Recording.call) F)) : Prop :=
  forall i idx, c !! i = Some idx ->
    exists answer, idx = Recording.index F i answer.

(** The comparator class a comparison operator node stands for
    ([process_Eq], ..., [process_In]). *)
Definition comparator_of (op : ast.node) : option cmp_kind :=
  match op with
  | ast.Eq => Some KEq | ast.NotEq => Some KNotEq
  | ast.Lt => Some KLt | ast.LtE => Some KLe
  | ast.Gt => Some KGt | ast.GtE => Some KGe
  | ast.In => Some KContains
  | _ => None
  end.

(** The operator class a binary or boolean operator node stands for
    ([process_BitOr], [process_BitAnd], [process_Sub], [process_Or],
    [process_And]). *)
Definition operator_of (op : ast.node) : option op_kind :=
  match op with
  | ast.BitOr | ast.Or => Some KUnion
  | ast.BitAnd | ast.And => Some KIntersection
  | ast.Sub => Some KDifference
  | _ => None
  end.

(** The value of a string or number literal node. *)
Definition literal_value (n : ast.node) : option pyval :=
  match n with
  | ast.Str s => Some (PStr s)
  | ast.Num n => Some (PNum n)
  | _ => None
  end.

(** How [process_List] treats one element: a name is replaced by its
    binding, anything else is kept. *)
Definition resolved (names : gmap string pyval) (v v' : pyval) : Prop :=
  match v with
  | PName id => names !! id = Some v'
  | _ => v' = v
  end.

(** * Properties of the optimizer *)

Section OptimizerFacts.

Lemma leaf_values_nonempty t : (1 <= length (leaf_values t))%nat.
Proof.
  induction t as [k i v | k l IHl r IHr]; simpl; [lia |].
  rewrite length_app. lia.
Qed.

(** A subtree on which [visit] answers "no common index" contributes no
    values. *)
Lemma visit_None_values t : forall t' vs, visit t = (t', None, vs) -> vs = [].
Proof.
  induction t as [k i v | k l IHl r IHr]; intros t' vs H; simpl in H.
  - destruct k; congruence.
  - destruct (visit l) as [[l' li] lv], (visit r) as [[r' ri] rv].
    case_bool_decide; simpl in H; [| congruence].
    injection H as _ Hi Hv. subst.
    now rewrite (IHl _ _ eq_refl), (IHr _ _ eq_refl).
Qed.

(** [visit] answers with an index exactly on the subtrees whose leaves are
    all [Eq] on that index; it then leaves the subtree alone and returns
    the leaves' values in order.  The kinds of the operators play no part. *)
Lemma visit_Some t : forall t' i vs,
  visit t = (t', Some i, vs) ->
  t' = t /\ all_eq_on i t = true /\ vs = leaf_values t.
Proof.
  induction t as [k j v | k l IHl r IHr]; intros t' i vs H; simpl in H.
  - destruct k; try congruence. injection H as <- <- <-.
    simpl. rewrite bool_decide_eq_true. auto.
  - destruct (visit l) as [[l' li] lv], (visit r) as [[r' ri] rv].
    case_bool_decide; simpl in H; [| congruence].
    injection H as <- Hi <-. subst.
    destruct (IHl _ _ _ eq_refl) as (-> & Hl & ->).
    destruct (IHr _ _ _ eq_refl) as (-> & Hr & ->).
    simpl. rewrite Hl, Hr. auto.
Qed.

Lemma visit_all_eq_on i t :
  all_eq_on i t = true -> visit t = (t, Some i, leaf_values t).
Proof.
  induction t as [k j v | k l IHl r IHr]; simpl; intros H.
  - destruct k; try discriminate.
    apply bool_decide_eq_true in H. now subst.
  - apply andb_prop in H as [Hl Hr].
    rewrite (IHl Hl), (IHr Hr). now rewrite bool_decide_eq_true_2.
Qed.

Lemma eq_run_all_eq_on k i t : eq_run k i t = true -> all_eq_on i t = true.
Proof.
  induction t as [k' j v | k' l IHl r IHr]; simpl; [auto |].
  intros H. apply andb_prop in H as [H Hr]. apply andb_prop in H as [_ Hl].
  now rewrite IHl, IHr.
Qed.

Lemma group_cases node i vs :
  group node (Some i) vs = node
  \/ group node (Some i) vs = All i (PList vs)
  \/ group node (Some i) vs = Any i (PList vs).
Proof.
  unfold group. destruct (1 <? length vs)%nat; [| auto].
  destruct node as [? ? ? | [] ? ?]; auto.
Qed.

Lemma group_None node vs : group node None vs = node.
Proof. unfold group. now destruct (1 <? length vs)%nat. Qed.

(** What [group] does to a visited child, seen by a second visit. *)
Lemma group_visit_stable x x' xi xv :
  visit x = (x', xi, xv) ->
  (xi = None -> visit x' = (x', None, [])) ->
  exists gi gv,
    visit (group x' xi xv) = (group x' xi xv, gi, gv)
    /\ group (group x' xi xv) gi gv = group x' xi xv
    /\ (forall i, gi = Some i -> xi = Some i).
Proof.
  intros Hx Hnone. destruct xi as [j |].
  - destruct (visit_Some _ _ _ _ Hx) as (-> & Hall & ->).
    destruct (group_cases x j (leaf_values x)) as [Hg | [Hg | Hg]];
      rewrite Hg.
    + exists (Some j), (leaf_values x). now rewrite Hx, Hg.
    + exists None, []. repeat split; [discriminate].
    + exists None, []. repeat split; [discriminate].
  - rewrite group_None. exists None, []. rewrite (Hnone eq_refl).
    repeat split; [discriminate].
Qed.

(** A tree on which [visit] answered "no common index" is rewritten into
    a tree that a second visit leaves as it is. *)
Lemma visit_stable t : forall t' vs,
  visit t = (t', None, vs) -> visit t' = (t', None, []).
Proof.
  induction t as [k i v | k l IHl r IHr]; intros t' vs H; simpl in H.
  - destruct k; try discriminate; now injection H as <- _.
  - destruct (visit l) as [[l' li] lv] eqn:Hl.
    destruct (visit r) as [[r' ri] rv] eqn:Hr.
    assert (Gl := group_visit_stable _ _ _ _ Hl).
    assert (Gr := group_visit_stable _ _ _ _ Hr).
    case_bool_decide as Hidx; simpl in H.
    + injection H as <- -> _. subst ri.
      simpl. now rewrite (IHl _ _ eq_refl), (IHr _ _ eq_refl).
    + injection H as <- _.
      destruct Gl as (gli & glv & Hvl & Hgl & Hil).
      { intros ->. eapply IHl; eauto. }
      destruct Gr as (gri & grv & Hvr & Hgr & Hir).
      { intros ->. eapply IHr; eauto. }
      simpl. rewrite Hvl, Hvr. case_bool_decide as Hidx2; simpl.
      * subst gri. destruct gli as [i |].
        -- exfalso. apply Hidx.
           now rewrite (Hil i eq_refl), (Hir i eq_refl).
        -- now rewrite (visit_None_values _ _ _ Hvl),
             (visit_None_values _ _ _ Hvr).
      * now rewrite Hgl, Hgr.
Qed.

Lemma leaf_values_operator k l r :
  (1 <? length (leaf_values (Operator k l r)))%nat = true.
Proof.
  simpl. rewrite length_app. apply Nat.ltb_lt.
  pose proof (leaf_values_nonempty l). pose proof (leaf_values_nonempty r).
  lia.
Qed.

(** A comparator at the root is returned as it is: a single [Eq] leaf and
    every comparator that is not [Eq]. *)
Lemma optimize_comparator k i v :
  _group_any_and_all (Comparator k i v) = Comparator k i v.
Proof. now destruct k. Qed.

(** The criterion the code applies at the root: an operator tree is
    replaced by one comparator exactly when its root is not a
    [Difference] and all its leaves are [Eq] on one index. *)
Lemma optimize_root_collapse k l r :
  (exists c i v, _group_any_and_all (Operator k l r) = Comparator c i v)
  <-> (k <> KDifference /\ exists i, all_eq_on i (Operator k l r) = true).
Proof.
  unfold _group_any_and_all. split.
  - intros (c & i & v & H).
    destruct (visit (Operator k l r)) as [[t' [j |]] vs] eqn:Hv.
    + destruct (visit_Some _ _ _ _ Hv) as (-> & Hall & ->).
      split; [| eauto]. intros ->. unfold group in H.
      now rewrite leaf_values_operator in H.
    + rewrite group_None in H. subst t'. simpl in Hv.
      destruct (visit l) as [[? ?] ?], (visit r) as [[? ?] ?].
      case_bool_decide; discriminate.
  - intros (Hk & i & Hall). rewrite (visit_all_eq_on _ _ Hall).
    unfold group. rewrite leaf_values_operator.
    destruct k; [eauto | eauto | congruence].
Qed.

(** C9.  Optimizing twice gives the same tree as optimizing once:
    [_group_any_and_all (_group_any_and_all t) = _group_any_and_all t]
    for every query tree [t]. *)
Theorem optimize_idempotent (t : Query) :
  _group_any_and_all (_group_any_and_all t) = _group_any_and_all t.
Proof.
  unfold _group_any_and_all.
  destruct (visit t) as [[t' i] vs] eqn:H.
  destruct (group_visit_stable _ _ _ _ H) as (gi & gv & Hv & Hg & _).
  { intros ->. eapply visit_stable; eauto. }
  now rewrite Hv.
Qed.

(** C2.  A tree of at least two [Eq] leaves on one index [i] joined only
    by [Intersection] nodes is optimized into the single comparator
    [All i [v1; ...; vn]], the values being those of the leaves from left
    to right; joined only by [Union] nodes it becomes [Any i [v1; ...; vn]]
    with the same order. *)
Theorem optimize_eq_run (i : string) (t : Query) :
  (1 < length (leaf_values t))%nat ->
  (eq_run KIntersection i t = true ->
     _group_any_and_all t = All i (PList (leaf_values t)))
  /\ (eq_run KUnion i t = true ->
     _group_any_and_all t = Any i (PList (leaf_values t))).
Proof.
  intros Hlen. apply Nat.ltb_lt in Hlen.
  split; intros Hrun; unfold _group_any_and_all;
    rewrite (visit_all_eq_on _ _ (eq_run_all_eq_on _ _ _ Hrun));
    unfold group; rewrite Hlen;
    (destruct t as [k j v | k l r]; [discriminate Hlen |]);
    simpl in Hrun; apply andb_prop in Hrun as [Hrun _];
    apply andb_prop in Hrun as [Hk _];
    apply bool_decide_eq_true in Hk; now subst k.
Qed.

(** The theorem at a tree of three leaves, for each operator kind. *)
Lemma optimize_eq_run_witness :
  _group_any_and_all
    (Intersection (Eq "i" (PNum 1))
                  (Intersection (Eq "i" (PStr "b")) (Eq "i" (PNum 3))))
  = All "i" (PList [PNum 1; PStr "b"; PNum 3])
  /\ _group_any_and_all
       (Union (Union (Eq "i" (PNum 1)) (Eq "i" (PStr "b"))) (Eq "i" (PNum 3)))
     = Any "i" (PList [PNum 1; PStr "b"; PNum 3]).
Proof.
  split.
  - apply (optimize_eq_run "i"
             (Intersection (Eq "i" (PNum 1))
                (Intersection (Eq "i" (PStr "b")) (Eq "i" (PNum 3)))));
      [simpl; lia | reflexivity].
  - apply (optimize_eq_run "i"
             (Union (Union (Eq "i" (PNum 1)) (Eq "i" (PStr "b")))
                (Eq "i" (PNum 3))));
      [simpl; lia | reflexivity].
Defined.

(** C1.  The optimizer does not look at the kinds of the operators inside
    a run: [Eq] leaves on one index joined by mixed kinds, or by a
    [Difference] below the root, are collapsed into one batched
    comparator. *)
Theorem optimize_collapses_mixed_kinds :
  _group_any_and_all
    (Intersection (Eq "a" (PNum 1))
                  (Union (Eq "a" (PNum 2)) (Eq "a" (PNum 3))))
  = All "a" (PList [PNum 1; PNum 2; PNum 3])
  /\ _group_any_and_all
       (Union (Difference (Eq "a" (PNum 1)) (Eq "a" (PNum 2)))
              (Eq "a" (PNum 3)))
     = Any "a" (PList [PNum 1; PNum 2; PNum 3]).
Proof. split; reflexivity. Qed.

End OptimizerFacts.

(** * Properties of evaluation *)

Section EvaluationFacts.

Context {S : Type} (F : Family).

Implicit Types (l r q : Query) (c : gmap string (@Index S F)) (s : S).

(** An error raised while the left child is evaluated ends the evaluation
    of an operator there. *)
Lemma apply_left_raises k l r c s s1 e :
  apply F l c s = (s1, Raise e) ->
  apply F (Operator k l r) c s = (s1, Raise e).
Proof.
  intros H. destruct k; simpl; unfold mbind, M_bind; now rewrite H.
Qed.

(** The branches of [Difference.apply], for any weighted-set family. *)
Lemma Difference_apply_cases l r c s s1 (L : IFSet F) :
  apply F l c s = (s1, Ok L) ->
  (len F L = 0%nat -> apply F (Difference l r) c s = (s1, Ok (IF_Set F)))
  /\ (len F L <> 0%nat -> forall s2 (R : IFSet F),
        apply F r c s1 = (s2, Ok R) ->
        (len F R = 0%nat -> apply F (Difference l r) c s = (s2, Ok L))
        /\ (len F R <> 0%nat ->
            apply F (Difference l r) c s = (s2, Ok (difference F L R)))).
Proof.
  intros Hl. simpl. unfold mbind, M_bind. rewrite Hl. split.
  - intros ->. reflexivity.
  - intros HL s2 R Hr. apply Nat.eqb_neq in HL. rewrite HL, Hr. split.
    + intros ->. reflexivity.
    + intros HR. apply Nat.eqb_neq in HR. now rewrite HR.
Qed.

(** C3.  [Intersection.apply] evaluates the left child first.  When the
    left result is empty the answer is the empty set and the collaborator
    state is the one the left child left behind, whatever the right child
    is: the right child is not evaluated.  Otherwise the right child is
    evaluated next; an empty right result gives the empty set, and two
    non-empty results give their weighted intersection. *)
Theorem Intersection_apply_short_circuit l r c s s1 (L : IFSet F) :
  apply F l c s = (s1, Ok L) ->
  (len F L = 0%nat ->
     apply F (Intersection l r) c s = (s1, Ok (IF_Set F)))
  /\ (len F L <> 0%nat -> forall s2 (R : IFSet F),
        apply F r c s1 = (s2, Ok R) ->
        (len F R = 0%nat ->
           apply F (Intersection l r) c s = (s2, Ok (IF_Set F)))
        /\ (len F R <> 0%nat ->
            apply F (Intersection l r) c s
            = (s2, Ok (weightedIntersection F L R).2))).
Proof.
  intros Hl. simpl. unfold mbind, M_bind. rewrite Hl. split.
  - intros ->. reflexivity.
  - intros HL s2 R Hr. apply Nat.eqb_neq in HL. rewrite HL, Hr. split.
    + intros ->. reflexivity.
    + intros HR. apply Nat.eqb_neq in HR. now rewrite HR.
Qed.

(** C5.  On an accumulator whose results are empty, [And] and [Not]
    return the accumulator as it is and leave the collaborator state
    untouched, whatever the query: the query is not evaluated.  On an
    accumulator with results, [And] evaluates the query, stores the
    weighted intersection when the query's result is non-empty, and
    stores the empty set when it is empty. *)
Theorem And_Not_short_circuit (self : @SearchQuery S F) q s :
  (len F (results F self) = 0%nat ->
     And F self q s = (s, Ok self) /\ Not F self q s = (s, Ok self))
  /\ (len F (results F self) <> 0%nat -> forall s1 (res : IFSet F),
        apply F q (catalog self) s = (s1, Ok res) ->
        (len F res <> 0%nat ->
           And F self q s
           = (s1, Ok (set_results F self
                        (weightedIntersection F (results F self) res).2)))
        /\ (len F res = 0%nat ->
            And F self q s = (s1, Ok (set_results F self (IF_Set F)))
            /\ results F (set_results F self (IF_Set F)) = IF_Set F)).
Proof.
  unfold And, Not. split.
  - intros ->. split; reflexivity.
  - intros Hres s1 res Hq. apply Nat.eqb_neq in Hres. rewrite Hres.
    unfold mbind, M_bind, truth. rewrite Hq. split.
    + intros Hn. apply Nat.eqb_neq in Hn. now rewrite Hn.
    + intros ->. split; reflexivity.
Qed.

End EvaluationFacts.

Section RecordedEvaluation.

Import Recording.

#[local] Abbreviation F := WeightedSet.family.

(** The theorem on the recording catalog: the log shows that only the
    left index call was made when the left result is empty, and both
    calls in order otherwise. *)
Lemma Intersection_apply_short_circuit_witness :
  apply F (Intersection (Eq "idx" (PNum 7)) (Eq "idx" (PNum 1)))
      sample_catalog []
    = ([("idx", KEq, PNum 7)], Ok [])
  /\ apply F (Intersection (Eq "idx" (PNum 1)) (Eq "idx" (PNum 7)))
       sample_catalog []
     = ([("idx", KEq, PNum 1); ("idx", KEq, PNum 7)], Ok [])
  /\ apply F (Intersection (Eq "idx" (PNum 1)) (Eq "idx" (PNum 2)))
       sample_catalog []
     = ([("idx", KEq, PNum 1); ("idx", KEq, PNum 2)],
        Ok [(2, 2); (3, 2)]%Z).
Proof.
  split; [| split].
  - apply (Intersection_apply_short_circuit F
             (Eq "idx" (PNum 7)) (Eq "idx" (PNum 1)) sample_catalog []
             [("idx", KEq, PNum 7)] []); reflexivity.
  - destruct (Intersection_apply_short_circuit F
                (Eq "idx" (PNum 1)) (Eq "idx" (PNum 7)) sample_catalog []
                [("idx", KEq, PNum 1)] [(1, 1); (2, 1); (3, 1)]%Z eq_refl)
      as [_ H].
    destruct (H ltac:(discriminate)
                [("idx", KEq, PNum 1); ("idx", KEq, PNum 7)] [] eq_refl)
      as [H0 _].
    exact (H0 eq_refl).
  - destruct (Intersection_apply_short_circuit F
                (Eq "idx" (PNum 1)) (Eq "idx" (PNum 2)) sample_catalog []
                [("idx", KEq, PNum 1)] [(1, 1); (2, 1); (3, 1)]%Z eq_refl)
      as [_ H].
    destruct (H ltac:(discriminate)
                [("idx", KEq, PNum 1); ("idx", KEq, PNum 2)]
                [(2, 1); (3, 1); (4, 1)]%Z eq_refl)
      as [_ H1].
    exact (H1 ltac:(discriminate)).
Defined.

Lemma mem_In d (R : WeightedSet.t) :
  WeightedSet.mem d R = true <-> In d (WeightedSet.doc_ids R).
Proof.
  unfold WeightedSet.mem. rewrite existsb_exists. split.
  - intros (x & Hx & Heq). apply Z.eqb_eq in Heq. now subst.
  - intros H. exists d. split; [assumption | apply Z.eqb_refl].
Qed.

(** The modelled [difference] keeps exactly the pairs of the left set
    whose document id does not occur in the right set. *)
Lemma difference_spec (L R : WeightedSet.t) d w :
  In (d, w) (WeightedSet.difference L R)
  <-> In (d, w) L /\ ~ In d (WeightedSet.doc_ids R).
Proof.
  unfold WeightedSet.difference. rewrite filter_In. simpl.
  rewrite negb_true_iff, <- not_true_iff_false, mem_In. reflexivity.
Qed.

(** C4.  [Difference.apply] evaluates the left child first.  An empty left
    result gives the empty set and the right child is not evaluated (the
    collaborator state is the one the left child left behind).  Otherwise
    the right child is evaluated; an empty right result gives exactly the
    left result; otherwise the result holds the pairs of the left result
    whose document id does not occur in the right result, weights as in
    the left result. *)
Theorem Difference_apply_spec {S : Type} (l r : Query)
    (c : gmap string (@Index S F)) (s s1 : S) (L : WeightedSet.t) :
  apply F l c s = (s1, Ok L) ->
  (L = [] -> apply F (Difference l r) c s = (s1, Ok []))
  /\ (L <> [] -> forall s2 (R : WeightedSet.t),
        apply F r c s1 = (s2, Ok R) ->
        (R = [] -> apply F (Difference l r) c s = (s2, Ok L))
        /\ (R <> [] -> exists D : WeightedSet.t,
              apply F (Difference l r) c s = (s2, Ok D)
              /\ forall d w,
                   In (d, w) D
                   <-> In (d, w) L /\ ~ In d (WeightedSet.doc_ids R))).
Proof.
  intros Hl. destruct (Difference_apply_cases F l r c s s1 L Hl) as [H0 H1].
  split.
  - intros ->. now apply H0.
  - intros HL s2 R Hr.
    destruct (H1 ltac:(now destruct L) s2 R Hr) as [H2 H3]. split.
    + intros ->. now apply H2.
    + intros HR. exists (WeightedSet.difference L R). split.
      * apply H3. now destruct R.
      * intros d w. apply difference_spec.
Qed.

(** The theorem on the recording catalog: an empty left result (one call
    logged), an empty right result, and a proper difference. *)
Lemma Difference_apply_spec_witness :
  apply F (Difference (Eq "idx" (PNum 7)) (Eq "idx" (PNum 1)))
      sample_catalog []
    = ([("idx", KEq, PNum 7)], Ok [])
  /\ apply F (Difference (Eq "idx" (PNum 1)) (Eq "idx" (PNum 7)))
       sample_catalog []
     = ([("idx", KEq, PNum 1); ("idx", KEq, PNum 7)],
        Ok [(1, 1); (2, 1); (3, 1)]%Z)
  /\ exists D : WeightedSet.t,
       apply F (Difference (Eq "idx" (PNum 1)) (Eq "idx" (PNum 2)))
         sample_catalog []
       = ([("idx", KEq, PNum 1); ("idx", KEq, PNum 2)], Ok D)
       /\ forall d w,
            In (d, w) D
            <-> In (d, w) [(1, 1); (2, 1); (3, 1)]%Z
                /\ ~ In d [2; 3; 4]%Z.
Proof.
  split; [| split].
  - apply (Difference_apply_spec
             (Eq "idx" (PNum 7)) (Eq "idx" (PNum 1)) sample_catalog []
             [("idx", KEq, PNum 7)] []); reflexivity.
  - destruct (Difference_apply_spec
                (Eq "idx" (PNum 1)) (Eq "idx" (PNum 7)) sample_catalog []
                [("idx", KEq, PNum 1)] [(1, 1); (2, 1); (3, 1)]%Z eq_refl)
      as [_ H].
    destruct (H ltac:(discriminate)
                [("idx", KEq, PNum 1); ("idx", KEq, PNum 7)] [] eq_refl)
      as [H0 _].
    exact (H0 eq_refl).
  - destruct (Difference_apply_spec
                (Eq "idx" (PNum 1)) (Eq "idx" (PNum 2)) sample_catalog []
                [("idx", KEq, PNum 1)] [(1, 1); (2, 1); (3, 1)]%Z eq_refl)
      as [_ H].
    destruct (H ltac:(discriminate)
                [("idx", KEq, PNum 1); ("idx", KEq, PNum 2)]
                [(2, 1); (3, 1); (4, 1)]%Z eq_refl)
      as [_ H1].
    exact (H1 ltac:(discriminate)).
Defined.

(** The difference computed on the recording catalog. *)
Example Difference_apply_sample :
  apply F (Difference (Eq "idx" (PNum 1)) (Eq "idx" (PNum 2)))
    sample_catalog []
  = ([("idx", KEq, PNum 1); ("idx", KEq, PNum 2)], Ok [(1, 1)]%Z).
Proof. reflexivity. Qed.

(** The theorem on the recording catalog.  An accumulator without results
    is returned as it is by [And] and [Not] and nothing is logged; an
    accumulator holding documents 1, 2, 3 is narrowed by [And], and
    emptied by an [And] whose query matches nothing. *)
Lemma And_Not_short_circuit_witness :
  (And F sample_empty (Eq "idx" (PNum 1)) [] = ([], Ok sample_empty)
   /\ Not F sample_empty (Eq "idx" (PNum 1)) [] = ([], Ok sample_empty))
  /\ And F sample_full (Eq "idx" (PNum 2)) []
     = ([("idx", KEq, PNum 2)],
        Ok {| catalog := sample_catalog;
              _results := Some [(2, 2); (3, 2)]%Z |})
  /\ And F sample_full (Eq "idx" (PNum 7)) []
     = ([("idx", KEq, PNum 7)],
        Ok {| catalog := sample_catalog; _results := Some [] |}).
Proof.
  split; [| split].
  - apply (And_Not_short_circuit F sample_empty (Eq "idx" (PNum 1)) []).
    reflexivity.
  - destruct (And_Not_short_circuit F sample_full (Eq "idx" (PNum 2)) [])
      as [_ H].
    destruct (H ltac:(discriminate) [("idx", KEq, PNum 2)]
                [(2, 1); (3, 1); (4, 1)]%Z eq_refl) as [H0 _].
    exact (H0 ltac:(discriminate)).
  - destruct (And_Not_short_circuit F sample_full (Eq "idx" (PNum 7)) [])
      as [_ H].
    destruct (H ltac:(discriminate) [("idx", KEq, PNum 7)] [] eq_refl)
      as [_ H1].
    exact (proj1 (H1 eq_refl)).
Defined.

End RecordedEvaluation.

(** * Properties of the combinators *)

Section CombinatorFacts.

Import Combinators.

(** C8.  [AND], [OR] and [SUB] build [Intersection], [Union] and
    [Difference] with [self] as left child and the operand as right child
    when the operand is a query, and raise a [TypeError] whose message
    names the operation and the types of both operands when it is not. *)
Theorem combinators_check_type (self : Query) (right : pyval) :
  (forall r, right = PQuery r ->
     __and__ self right = Ok (Intersection self r)
     /\ __or__ self right = Ok (Union self r)
     /\ __sub__ self right = Ok (Difference self r))
  /\ (is_Query right = false ->
      __and__ self right
      = Raise (TypeError
                 ("TypeError: unsupported operand types for set intersection: "
                  ++ type_repr (PQuery self) ++ " " ++ type_repr right))
      /\ __or__ self right
         = Raise (TypeError
                    ("TypeError: unsupported operand types for set union: "
                     ++ type_repr (PQuery self) ++ " " ++ type_repr right))
      /\ __sub__ self right
         = Raise (TypeError
                    ("TypeError: unsupported operand types for set difference: "
                     ++ type_repr (PQuery self) ++ " " ++ type_repr right))).
Proof.
  split.
  - intros r ->. repeat split.
  - intros H. destruct right; try discriminate H; repeat split.
Qed.

(** The theorem at [Eq("a", 1)] with a query and with a number as right
    operand. *)
Lemma combinators_check_type_witness :
  (__and__ (Eq "a" (PNum 1)) (PQuery (Gt "b" (PNum 2)))
     = Ok (Intersection (Eq "a" (PNum 1)) (Gt "b" (PNum 2)))
   /\ __or__ (Eq "a" (PNum 1)) (PQuery (Gt "b" (PNum 2)))
      = Ok (Union (Eq "a" (PNum 1)) (Gt "b" (PNum 2)))
   /\ __sub__ (Eq "a" (PNum 1)) (PQuery (Gt "b" (PNum 2)))
      = Ok (Difference (Eq "a" (PNum 1)) (Gt "b" (PNum 2))))
  /\ __and__ (Eq "a" (PNum 1)) (PNum 5)
     = Raise (TypeError
                "TypeError: unsupported operand types for set intersection: <class 'repoze.catalog.query.Eq'> <type 'int'>").
Proof.
  split.
  - apply (combinators_check_type (Eq "a" (PNum 1))
             (PQuery (Gt "b" (PNum 2)))).
    reflexivity.
  - apply (combinators_check_type (Eq "a" (PNum 1)) (PNum 5)).
    reflexivity.
Defined.

End CombinatorFacts.

(** * Properties of the compiler *)

Section CompilerFacts.

Import Combinators Compiler Samples.

Variable names : gmap string pyval.

Lemma visit_list_app (a b : list ast.node) :
  visit_list names (a ++ b)
  = (xs ← visit_list names a; ys ← visit_list names b; Ok (xs ++ ys)).
Proof.
  induction a as [| x a IH]; simpl.
  - unfold mbind, result_bind. now destruct (visit_list names b).
  - unfold mbind, result_bind in *. destruct (visit names x); [| reflexivity].
    rewrite IH. destruct (visit_list names a); [| reflexivity].
    now destruct (visit_list names b).
Qed.

(** [visit] as the source writes it: the children that
    [ast.iter_child_nodes] yields are visited in order, then the node is
    dispatched. *)
Lemma visit_unfold (n : ast.node) :
  visit names n
  = (children ← visit_list names (ast.iter_child_nodes n);
     dispatch names n children).
Proof.
  destruct n; simpl; try reflexivity;
    try rewrite visit_list_app; simpl; unfold mbind, result_bind;
    change (fix visit_all (l : list ast.node) : result (list pyval) :=
              match l with
              | [] => Ok []
              | c :: cs =>
                  match visit names c with
                  | Ok a =>
                      match visit_all cs with
                      | Ok a0 => Ok (a :: a0)
                      | Raise e => Raise e
                      end
                  | Raise e => Raise e
                  end
              end) with (visit_list names).
  all: repeat match goal with
       | |- context [match ?x with Ok _ => _ | Raise _ => _ end] =>
           lazymatch x with
           | context [match _ with Ok _ => _ | Raise _ => _ end] => fail
           | _ => destruct x
           end
       end; reflexivity.
Qed.

(** What [process_Compare] returns when it returns: a comparator whose
    index name is the identifier of the [ast.Name] in index position. *)
Lemma process_Compare_inv (children : list pyval) (v : pyval) :
  process_Compare names children = Ok v ->
  exists operand1 k operand2 id val,
    children = [operand1; PCmpClass k; operand2]
    /\ v = PQuery (Comparator k id val)
    /\ (if bool_decide (k = KContains)
        then operand2 = PName id /\ _value names operand1 = Ok val
        else operand1 = PName id /\ _value names operand2 = Ok val).
Proof.
  intros H. unfold process_Compare in H.
  destruct children as [| operand1 [| operator [| operand2 [|]]]];
    try discriminate H.
  destruct operator as [| | | | | | k | |];
    try (unfold mbind, result_bind in H;
         destruct (_index_name operand1); [| discriminate H];
         destruct (_value names operand2); discriminate H).
  exists operand1, k, operand2.
  destruct k; unfold mbind, result_bind in H; simpl.
  1: destruct operand2; try discriminate H; simpl in H;
     destruct (_value names operand1) eqn:Hv; [| discriminate H];
     injection H as <-; do 2 eexists; simpl; auto.
  all: destruct operand1; try discriminate H; simpl in H;
       destruct (_value names operand2) eqn:Hv; [| discriminate H];
       injection H as <-; do 2 eexists; simpl; auto.
Qed.

Lemma call_operator_Ok operator l r q :
  call_operator operator l r = Ok q -> exists k, q = Operator k l r.
Proof. destruct operator; try discriminate. intros [= <-]. eauto. Qed.

Lemma process_BinOp_Query children v :
  process_BinOp children = Ok v -> is_Query v = true.
Proof.
  intros H. unfold process_BinOp in H.
  destruct children as [| l [| operator [| r [|]]]]; try discriminate H.
  unfold mbind, result_bind in H.
  destruct l, r; try (destruct (__name__ operator); discriminate H).
  destruct (call_operator operator q q0); [| discriminate H].
  now injection H as <-.
Qed.

Lemma process_BoolOp_Query children v :
  process_BoolOp children = Ok v -> is_Query v = true.
Proof.
  intros H. unfold process_BoolOp in H.
  destruct children as [| operator children]; [discriminate H |].
  unfold mbind, result_bind in H.
  destruct (as_queries children) as [[| a [| b rest]] |];
    try discriminate H.
  - destruct (call_operator operator a b); [| discriminate H].
    destruct (fold_operator operator a0 rest); [| discriminate H].
    now injection H as <-.
  - destruct (__name__ operator); discriminate H.
Qed.

(** Only an [ast.Name] node is visited into a name. *)
Lemma visit_PName (n : ast.node) (id : string) :
  visit names n = Ok (PName id) -> exists ctx, n = ast.Name id ctx.
Proof.
  rewrite visit_unfold. unfold mbind, result_bind.
  destruct (visit_list names (ast.iter_child_nodes n)) as [children |];
    [| discriminate].
  unfold dispatch. destruct n; simpl; try discriminate.
  - intros [= ->]. eauto.
  - unfold fmap, result_fmap. destruct (process_List names children);
      discriminate.
  - unfold fmap, result_fmap. destruct (process_List names children);
      discriminate.
  - intros H. apply process_Compare_inv in H.
    destruct H as (? & ? & ? & ? & ? & _ & H & _). discriminate H.
  - intros H. apply process_BinOp_Query in H. discriminate H.
  - intros H. apply process_BoolOp_Query in H. discriminate H.
Qed.

(** Only the comparison operator nodes are visited into comparator
    classes: [In] into [Contains], the ordinary ones into the others. *)
Lemma visit_PCmpClass (n : ast.node) (k : cmp_kind) :
  visit names n = Ok (PCmpClass k) ->
  (k = KContains /\ n = ast.In) \/ (k <> KContains /\ ordinary_op n = true).
Proof.
  rewrite visit_unfold. unfold mbind, result_bind.
  destruct (visit_list names (ast.iter_child_nodes n)) as [children |];
    [| discriminate].
  unfold dispatch. destruct n; simpl; try discriminate;
    try (intros [= <-];
         first [ left; split; reflexivity
               | right; split; [discriminate | reflexivity] ]).
  - unfold fmap, result_fmap. destruct (process_List names children);
      discriminate.
  - unfold fmap, result_fmap. destruct (process_List names children);
      discriminate.
  - intros H. apply process_Compare_inv in H.
    destruct H as (? & ? & ? & ? & ? & _ & H & _). discriminate H.
  - intros H. apply process_BinOp_Query in H. discriminate H.
  - intros H. apply process_BoolOp_Query in H. discriminate H.
Qed.

End CompilerFacts.

Section ParseQueryFacts.

Import Combinators Compiler Samples.

Variable ast_parse : string -> result (list ast.node).
Variable names : option (gmap string pyval).

(** The compilation of a text that parses to the single comparison
    [l op r]. *)
Lemma parse_query_Compare expr l op r :
  ast_parse expr = Ok [ast.Expr (ast.Compare l [op] [r])] ->
  parse_query ast_parse expr names
  = (query ← (vl ← visit (default_names names) l;
              vo ← visit (default_names names) op;
              vr ← visit (default_names names) r;
              process_Compare (default_names names) [vl; vo; vr]);
     Ok (match query with
         | PQuery q => PQuery (_group_any_and_all q)
         | v => v
         end)).
Proof.
  intros H. unfold parse_query, _AstQuery. rewrite H. simpl.
  unfold walk, mbind, result_bind.
  destruct (visit (default_names names) l); [| reflexivity].
  destruct (visit (default_names names) op); [| reflexivity].
  destruct (visit (default_names names) r); reflexivity.
Qed.

(** C6.  Whatever the name table: a text that Python parses as
    [idx == 'x'] compiles to [Eq("idx", "x")], [idx1 == 1 and idx2 == 2]
    to [Intersection(Eq("idx1", 1), Eq("idx2", 2))], and ['v' in idx] to
    [Contains("idx", "v")].  In general the membership test takes the
    index name from its right operand and the value from its left one,
    the ordinary comparison the other way round, and the name in index
    position is never looked up in the name table. *)
Theorem parse_query_examples :
  ast_parse "idx == 'x'"
    = Ok [ast.Expr (ast.Compare (ast.Name "idx" ast.Load) [ast.Eq]
                      [ast.Str "x"])] ->
  ast_parse "idx1 == 1 and idx2 == 2"
    = Ok [ast.Expr
            (ast.BoolOp ast.And
               [ast.Compare (ast.Name "idx1" ast.Load) [ast.Eq] [ast.Num 1];
                ast.Compare (ast.Name "idx2" ast.Load) [ast.Eq] [ast.Num 2]])] ->
  ast_parse "'v' in idx"
    = Ok [ast.Expr (ast.Compare (ast.Str "v") [ast.In]
                      [ast.Name "idx" ast.Load])] ->
  parse_query ast_parse "idx == 'x'" names = Ok (PQuery (Eq "idx" (PStr "x")))
  /\ parse_query ast_parse "idx1 == 1 and idx2 == 2" names
     = Ok (PQuery (Intersection (Eq "idx1" (PNum 1)) (Eq "idx2" (PNum 2))))
  /\ parse_query ast_parse "'v' in idx" names
     = Ok (PQuery (Contains "idx" (PStr "v")))
  /\ (forall expr id lit,
        ast_parse expr
          = Ok [ast.Expr (ast.Compare (ast.Str lit) [ast.In]
                            [ast.Name id ast.Load])] ->
        parse_query ast_parse expr names
        = Ok (PQuery (Contains id (PStr lit))))
  /\ (forall expr id lit,
        ast_parse expr
          = Ok [ast.Expr (ast.Compare (ast.Name id ast.Load) [ast.Eq]
                            [ast.Str lit])] ->
        parse_query ast_parse expr names = Ok (PQuery (Eq id (PStr lit)))).
Proof.
  intros H1 H2 H3. repeat split.
  - now rewrite (parse_query_Compare _ _ _ _ H1).
  - unfold parse_query, _AstQuery. now rewrite H2.
  - now rewrite (parse_query_Compare _ _ _ _ H3).
  - intros expr id lit H. now rewrite (parse_query_Compare _ _ _ _ H).
  - intros expr id lit H. now rewrite (parse_query_Compare _ _ _ _ H).
Qed.

(** C7, as the code has it.  A text that parses to more than one
    statement is rejected with the [ValueError] "Can only process single
    expression.", and a text whose single statement is not an expression
    statement with the [ValueError] "Not an expression."; no tree is
    returned. *)
Theorem parse_query_rejects_statements expr statements :
  ast_parse expr = Ok statements ->
  ((1 < length statements)%nat ->
     parse_query ast_parse expr names
     = Raise (ValueError "Can only process single expression."))
  /\ (forall stmt, statements = [stmt] ->
        (forall value, stmt <> ast.Expr value) ->
        parse_query ast_parse expr names
        = Raise (ValueError "Not an expression.")).
Proof.
  intros H. unfold parse_query, _AstQuery. rewrite H. simpl. split.
  - intros Hlen. apply Nat.ltb_lt in Hlen. now rewrite Hlen.
  - intros stmt -> Hstmt. simpl.
    destruct stmt; try reflexivity. now destruct (Hstmt stmt).
Qed.

(** C10, as the code has it.  For a comparison [l op r] whose operands
    are both visited without error: an ordinary comparison whose left
    operand is not a bare name, and a membership test whose right operand
    is not a bare name, are rejected with the [ValueError] "Index name
    must be a name.".  And whenever a comparison compiles, the result is
    a comparator whose index name is the identifier of the bare name in
    index position. *)
Theorem parse_query_index_must_be_name expr l op r vl vr :
  ast_parse expr = Ok [ast.Expr (ast.Compare l [op] [r])] ->
  visit (default_names names) l = Ok vl ->
  visit (default_names names) r = Ok vr ->
  (ordinary_op op = true -> is_Name l = false ->
     parse_query ast_parse expr names
     = Raise (ValueError "Index name must be a name."))
  /\ (op = ast.In -> is_Name r = false ->
      parse_query ast_parse expr names
      = Raise (ValueError "Index name must be a name."))
  /\ (forall v, parse_query ast_parse expr names = Ok v ->
      exists k id ctx val,
        v = PQuery (Comparator k id val)
        /\ ((op = ast.In /\ r = ast.Name id ctx)
            \/ (ordinary_op op = true /\ l = ast.Name id ctx))).
Proof.
  intros Hparse Hl Hr. rewrite (parse_query_Compare _ _ _ _ Hparse).
  unfold mbind, result_bind. rewrite Hl, Hr. repeat split.
  - intros Hop Hname. destruct vl;
      try (destruct op; try discriminate Hop; reflexivity).
    apply visit_PName in Hl as [ctx ->]. discriminate Hname.
  - intros -> Hname. simpl. destruct vr; try reflexivity.
    apply visit_PName in Hr as [ctx ->]. discriminate Hname.
  - intros v H.
    destruct (visit (default_names names) op) as [vo |] eqn:Hop;
      [| discriminate H].
    destruct (process_Compare (default_names names) [vl; vo; vr])
      as [query |] eqn:Hq; [| discriminate H].
    apply process_Compare_inv in Hq
      as (operand1 & k & operand2 & id & val & Hc & -> & Hk).
    injection Hc as <- -> <-. injection H as <-.
    apply visit_PCmpClass in Hop as [[-> ->] | [Hne Hord]].
    + simpl in Hk. destruct Hk as [-> _].
      apply visit_PName in Hr as [ctx ->].
      exists KContains, id, ctx, val. rewrite optimize_comparator. auto.
    + rewrite bool_decide_eq_false_2 in Hk by assumption.
      destruct Hk as [-> _]. apply visit_PName in Hl as [ctx ->].
      exists k, id, ctx, val. rewrite optimize_comparator. auto.
Qed.

End ParseQueryFacts.

Section CompilerSamples.

Import Combinators Compiler Samples.

(** The theorem on Python's parses of the three texts, with a name table
    that binds the index name: the binding is not used. *)
Lemma parse_query_examples_witness :
  parse_query sample_parse "idx == 'x'" (Some {[ "idx" := PNum 9 ]})
    = Ok (PQuery (Eq "idx" (PStr "x")))
  /\ parse_query sample_parse "idx1 == 1 and idx2 == 2"
       (Some {[ "idx" := PNum 9 ]})
     = Ok (PQuery (Intersection (Eq "idx1" (PNum 1)) (Eq "idx2" (PNum 2))))
  /\ parse_query sample_parse "'v' in idx" (Some {[ "idx" := PNum 9 ]})
     = Ok (PQuery (Contains "idx" (PStr "v"))).
Proof.
  destruct (parse_query_examples sample_parse (Some {[ "idx" := PNum 9 ]})
              eq_refl eq_refl eq_refl) as (H1 & H2 & H3 & _).
  exact (conj H1 (conj H2 H3)).
Defined.

(** C7 as stated fails: the text [idx == 1; idx2 == 2] is rejected with a
    [ValueError], which is not the [SyntaxError] that [ast.parse] raises
    on text that is not Python. *)
Lemma parse_query_statements_not_SyntaxError :
  parse_query sample_parse "idx == 1; idx2 == 2" None
    = Raise (ValueError "Can only process single expression.")
  /\ ~ (exists msg,
          parse_query sample_parse "idx == 1; idx2 == 2" None
          = Raise (SyntaxError msg)).
Proof.
  split; [reflexivity |]. intros [msg H]. discriminate H.
Qed.

(** The theorem on a text of two statements and on an assignment. *)
Lemma parse_query_rejects_statements_witness :
  parse_query sample_parse "idx == 1; idx2 == 2" None
    = Raise (ValueError "Can only process single expression.")
  /\ parse_query sample_parse "idx = 1" None
     = Raise (ValueError "Not an expression.").
Proof.
  split.
  - apply (parse_query_rejects_statements sample_parse None
             "idx == 1; idx2 == 2"
             [ast.Expr (compare (name "idx") ast.Eq (ast.Num 1));
              ast.Expr (compare (name "idx2") ast.Eq (ast.Num 2))]
             eq_refl).
    simpl. lia.
  - apply (proj2 (parse_query_rejects_statements sample_parse None "idx = 1"
                    [ast.Other "Assign"
                       [ast.Name "idx" (ast.Other "Store" []); ast.Num 1]]
                    eq_refl)
             (ast.Other "Assign"
                [ast.Name "idx" (ast.Other "Store" []); ast.Num 1])
             eq_refl).
    intros value. discriminate.
Defined.

(** C10 as stated fails: in [1 + 1 == 2] the operand in index position is
    not a bare name, yet the error is the one raised while that operand
    is visited, not the one about the index name. *)
Lemma parse_query_operand_error_first :
  sample_parse "1 + 1 == 2"
    = Ok [ast.Expr
            (ast.Compare
               (ast.BinOp (ast.Num 1) (ast.Other "Add" []) (ast.Num 1))
               [ast.Eq] [ast.Num 2])]
  /\ is_Name (ast.BinOp (ast.Num 1) (ast.Other "Add" []) (ast.Num 1)) = false
  /\ parse_query sample_parse "1 + 1 == 2" None
     = Raise (ValueError
                "Unable to parse expression.  Unhandled expression element: Add")
  /\ parse_query sample_parse "1 + 1 == 2" None
     <> Raise (ValueError "Index name must be a name.").
Proof.
  repeat split. discriminate.
Qed.

(** The theorem on [1 == 2]. *)
Lemma parse_query_index_must_be_name_witness :
  parse_query sample_parse "1 == 2" None
  = Raise (ValueError "Index name must be a name.").
Proof.
  apply (proj1 (parse_query_index_must_be_name sample_parse None "1 == 2"
                  (ast.Num 1) ast.Eq (ast.Num 2) (PNum 1) (PNum 2)
                  eq_refl eq_refl eq_refl)); reflexivity.
Defined.

(** The collapse of mixed operator kinds, reached from text. *)
Example parse_query_mixed_kinds :
  parse_query sample_parse "a == 1 and (a == 2 or a == 3)" None
  = Ok (PQuery (All "a" (PList [PNum 1; PNum 2; PNum 3]))).
Proof. reflexivity. Qed.

End CompilerSamples.

(** * Further properties of the optimizer *)

Section OptimizerExtras.

Lemma visit_no_eq t : has_eq t = false -> visit t = (t, None, []).
Proof.
  induction t as [k i v | k l IHl r IHr]; simpl; intros H.
  - now destruct k.
  - apply orb_false_elim in H as [Hl Hr]. now rewrite (IHl Hl), (IHr Hr).
Qed.

(** X1.  A tree without any [Eq] leaf is returned as it is. *)
Theorem optimize_no_eq_unchanged (t : Query) :
  has_eq t = false -> _group_any_and_all t = t.
Proof.
  intros H. unfold _group_any_and_all. rewrite (visit_no_eq _ H).
  apply group_None.
Qed.

Lemma optimize_no_eq_unchanged_witness :
  _group_any_and_all
    (Intersection (Gt "a" (PNum 1))
       (Union (Lt "a" (PNum 9)) (Any "b" (PList [PNum 1; PNum 2]))))
  = Intersection (Gt "a" (PNum 1))
      (Union (Lt "a" (PNum 9)) (Any "b" (PList [PNum 1; PNum 2]))).
Proof. apply optimize_no_eq_unchanged. reflexivity. Defined.

Lemma flat_values_all_eq_on i t :
  all_eq_on i t = true -> flat_values t = map (pair i) (leaf_values t).
Proof.
  induction t as [k j v | k l IHl r IHr]; simpl; intros H.
  - destruct k; try discriminate. apply bool_decide_eq_true in H.
    now subst.
  - apply andb_prop in H as [Hl Hr].
    now rewrite map_app, (IHl Hl), (IHr Hr).
Qed.

Lemma flat_values_group t i :
  all_eq_on i t = true ->
  flat_values (group t (Some i) (leaf_values t)) = flat_values t.
Proof.
  intros H.
  destruct (group_cases t i (leaf_values t)) as [Hg | [Hg | Hg]];
    rewrite Hg; [reflexivity | |]; simpl;
    now rewrite (flat_values_all_eq_on _ _ H).
Qed.

Lemma flat_values_grouped x x' xi xv :
  visit x = (x', xi, xv) ->
  flat_values x' = flat_values x ->
  flat_values (group x' xi xv) = flat_values x.
Proof.
  intros Hx Hflat. destruct xi as [i |].
  - destruct (visit_Some _ _ _ _ Hx) as (-> & Hall & ->).
    now apply flat_values_group.
  - now rewrite group_None.
Qed.

Lemma flat_values_visit t : forall t' idx vs,
  visit t = (t', idx, vs) -> flat_values t' = flat_values t.
Proof.
  induction t as [k i v | k l IHl r IHr]; intros t' idx vs H; simpl in H.
  - destruct k; now injection H as <- _ _.
  - destruct (visit l) as [[l' li] lv] eqn:Hl.
    destruct (visit r) as [[r' ri] rv] eqn:Hr.
    specialize (IHl _ _ _ eq_refl). specialize (IHr _ _ _ eq_refl).
    case_bool_decide; simpl in H; injection H as <- _ _; simpl.
    + now rewrite IHl, IHr.
    + now rewrite (flat_values_grouped _ _ _ _ Hl IHl),
        (flat_values_grouped _ _ _ _ Hr IHr).
Qed.

(** X2.  The optimizer neither drops, nor repeats, nor reorders what is
    tested: the (index name, value) pairs of the optimized tree, the
    values of a batched comparator counted one by one, are those of the
    original tree in the same order. *)
Theorem optimize_flat_values (t : Query) :
  flat_values (_group_any_and_all t) = flat_values t.
Proof.
  unfold _group_any_and_all. destruct (visit t) as [[t' idx] vs] eqn:H.
  apply (flat_values_grouped _ _ _ _ H).
  apply (flat_values_visit _ _ _ _ H).
Qed.

(** X3.  What happens at the root: an operator tree stays an operator of
    the same class, or, when all its leaves are [Eq] on one index, an
    [Intersection] becomes an [All] and a [Union] an [Any] holding the
    leaves' values in order.  A [Difference] at the root is never
    replaced. *)
Theorem optimize_root_kind (k : op_kind) (l r : Query) :
  (exists l' r', _group_any_and_all (Operator k l r) = Operator k l' r')
  \/ (exists i,
        all_eq_on i (Operator k l r) = true
        /\ ((k = KIntersection
             /\ _group_any_and_all (Operator k l r)
                = All i (PList (leaf_values (Operator k l r))))
            \/ (k = KUnion
                /\ _group_any_and_all (Operator k l r)
                   = Any i (PList (leaf_values (Operator k l r)))))).
Proof.
  unfold _group_any_and_all.
  destruct (visit (Operator k l r)) as [[t' [i |]] vs] eqn:Hv.
  - destruct (visit_Some _ _ _ _ Hv) as (-> & Hall & ->).
    unfold group. rewrite leaf_values_operator.
    destruct k; [right | right | left]; eauto 8.
  - rewrite group_None. left. simpl in Hv.
    destruct (visit l) as [[? ?] ?], (visit r) as [[? ?] ?].
    case_bool_decide; simpl in Hv; injection Hv; intros; subst; eauto.
Qed.

End OptimizerExtras.

(** * Further properties of evaluation *)

Section EvaluationExtras.

Context {S : Type} (F : Family).

Implicit Types (l r q t : Query) (c : gmap string (@Index S F)) (s : S).

#[local] Existing Instance M_bind.
#[local] Existing Instance M_ret.

(** Unfold the monad of index calls. *)
Ltac run_M :=
  repeat (progress (unfold mbind, M_bind, mret, M_ret; simpl)).

(** X4.  Evaluation consults the catalog only for the index names of the
    tree's leaves: two catalogs that agree on those names give the same
    result and the same collaborator state. *)
Theorem apply_catalog_local t : forall c1 c2 s,
  (forall i, In i (index_names t) -> c1 !! i = c2 !! i) ->
  apply F t c1 s = apply F t c2 s.
Proof.
  induction t as [k i v | k l IHl r IHr]; intros c1 c2 s H; simpl.
  - unfold mbind, M_bind, get_index. rewrite (H i); [reflexivity |].
    now left.
  - assert (Hl : forall i, In i (index_names l) -> c1 !! i = c2 !! i).
    { intros i Hi. apply H. simpl. apply in_or_app. now left. }
    assert (Hr : forall i, In i (index_names r) -> c1 !! i = c2 !! i).
    { intros i Hi. apply H. simpl. apply in_or_app. now right. }
    destruct k; unfold mbind, M_bind; rewrite (IHl c1 c2 s Hl);
      destruct (apply F l c2 s) as [s1 [L | e]]; try reflexivity;
      try (destruct (len F L =? 0)%nat; [reflexivity |]);
      now rewrite (IHr c1 c2 s1 Hr).
Qed.

(** X5.  When the catalog has no index under the name of the leftmost
    leaf, evaluation raises [KeyError] with that name and the collaborator
    state is untouched: no index has been called. *)
Theorem apply_missing_index t c s :
  c !! index_name_of t = None ->
  apply F t c s = (s, Raise (KeyError (index_name_of t))).
Proof.
  induction t as [k i v | k l IHl r IHr]; intros H.
  - unfold index_name_of in *. simpl in *.
    unfold mbind, M_bind, get_index. now rewrite H.
  - apply apply_left_raises. now apply IHl.
Qed.

(** X6.  An exception ends the evaluation of an operator of any class:
    raised by the left child, the right child is not evaluated; raised by
    the right child, when that one is evaluated, it is the outcome. *)
Theorem Operator_raises k l r c s s1 s2 e (L : IFSet F) :
  (apply F l c s = (s1, Raise e) ->
     apply F (Operator k l r) c s = (s1, Raise e))
  /\ (apply F l c s = (s1, Ok L) ->
      k = KUnion \/ len F L <> 0%nat ->
      apply F r c s1 = (s2, Raise e) ->
      apply F (Operator k l r) c s = (s2, Raise e)).
Proof.
  split.
  - apply apply_left_raises.
  - intros Hl Hk Hr. destruct k; simpl; unfold mbind, M_bind; rewrite Hl.
    + now rewrite Hr.
    + destruct Hk as [Hk | Hk]; [discriminate |].
      apply Nat.eqb_neq in Hk. now rewrite Hk, Hr.
    + destruct Hk as [Hk | Hk]; [discriminate |].
      apply Nat.eqb_neq in Hk. now rewrite Hk, Hr.
Qed.

(** X7.  The short circuit reaches through nested operators.  When the
    path from the root to the leftmost leaf goes through [Intersection]
    and [Difference] nodes only and that leaf's result is empty, the
    whole tree evaluates to an empty result with the collaborator state
    that the one leaf left behind: nothing else is evaluated.  Under an
    operator the result is [IF.Set()].  (The family's [Set()] must have
    length 0.) *)
Theorem apply_short_spine t c s s1 (L : IFSet F) :
  len F (IF_Set F) = 0%nat ->
  short_spine t = true ->
  apply F (leftmost t) c s = (s1, Ok L) ->
  len F L = 0%nat ->
  exists R : IFSet F,
    apply F t c s = (s1, Ok R)
    /\ len F R = 0%nat
    /\ (forall k l r, t = Operator k l r -> R = IF_Set F).
Proof.
  intros Hset. induction t as [k i v | k l IHl r IHr]; intros Hs Hl HL.
  - exists L. repeat split; [assumption.. |]. discriminate.
  - assert (Hsl : short_spine l = true) by now destruct k.
    destruct (IHl Hsl Hl HL) as (R & HR & Hlen & _).
    exists (IF_Set F).
    destruct k; [discriminate Hs | |]; simpl; unfold mbind, M_bind;
      rewrite HR, Hlen; auto.
Qed.

(** X8.  [SearchQuery(catalog, a).And(b)] goes the way of
    [Intersection(a, b).apply(catalog)]: the same collaborator state
    afterwards, the same exception if any, and the same results, except
    that an empty result of [a] is kept by the accumulator where the
    operator answers [IF.Set()]. *)
Theorem And_matches_Intersection (a b : Query) c s :
  ((acc ← __init__ F c (Some a); And F acc b) s).1
  = (apply F (Intersection a b) c s).1
  /\ match ((acc ← __init__ F c (Some a); And F acc b) s).2,
           (apply F (Intersection a b) c s).2 with
     | Ok acc, Ok R =>
         catalog acc = c
         /\ (results F acc = R
             \/ (len F (results F acc) = 0%nat /\ R = IF_Set F))
     | Raise e1, Raise e2 => e1 = e2
     | _, _ => False
     end.
Proof.
  unfold And, truth, results, set_results, __init__. run_M.
  destruct (apply F a c s) as [s1 [L | e]]; run_M; [| auto].
  destruct (len F L =? 0)%nat eqn:HL; run_M.
  - apply Nat.eqb_eq in HL. auto.
  - destruct (apply F b c s1) as [s2 [R | e]]; run_M; [| auto].
    destruct (len F R =? 0)%nat; run_M; auto.
Qed.

(** X9.  [SearchQuery(catalog, a).Not(b)] goes the way of
    [Difference(a, b).apply(catalog)], with the same exception about an
    empty result of [a]. *)
Theorem Not_matches_Difference (a b : Query) c s :
  ((acc ← __init__ F c (Some a); Not F acc b) s).1
  = (apply F (Difference a b) c s).1
  /\ match ((acc ← __init__ F c (Some a); Not F acc b) s).2,
           (apply F (Difference a b) c s).2 with
     | Ok acc, Ok R =>
         catalog acc = c
         /\ (results F acc = R
             \/ (len F (results F acc) = 0%nat /\ R = IF_Set F))
     | Raise e1, Raise e2 => e1 = e2
     | _, _ => False
     end.
Proof.
  unfold Not, truth, results, set_results, __init__. run_M.
  destruct (apply F a c s) as [s1 [L | e]]; run_M; [| auto].
  destruct (len F L =? 0)%nat eqn:HL; run_M.
  - apply Nat.eqb_eq in HL. auto.
  - destruct (apply F b c s1) as [s2 [R | e]]; run_M; [| auto].
    destruct (len F R =? 0)%nat; run_M; auto.
Qed.

(** X10.  [Or] always evaluates its query.  An empty result leaves the
    accumulator as it is; a non-empty one replaces empty results and is
    merged by weighted union into non-empty ones. *)
Theorem Or_cases (self : @SearchQuery S F) q s s1 (res : IFSet F) :
  apply F q (catalog self) s = (s1, Ok res) ->
  (len F res = 0%nat -> Or F self q s = (s1, Ok self))
  /\ (len F res <> 0%nat ->
      (len F (results F self) = 0%nat ->
         Or F self q s = (s1, Ok (set_results F self res)))
      /\ (len F (results F self) <> 0%nat ->
          Or F self q s
          = (s1, Ok (set_results F self
                       (weightedUnion F (results F self) res).2)))).
Proof.
  intros Hq. unfold Or, mbind, M_bind, truth. rewrite Hq. split.
  - intros ->. reflexivity.
  - intros Hres. apply Nat.eqb_neq in Hres. rewrite Hres. simpl. split.
    + intros ->. reflexivity.
    + intros Hn. apply Nat.eqb_neq in Hn. now rewrite Hn.
Qed.

(** X11.  On an accumulator with results, [Not] evaluates its query and
    subtracts a non-empty result; an empty result leaves the accumulator
    as it is (where [And] would empty it). *)
Theorem Not_nonempty (self : @SearchQuery S F) q s s1 (res : IFSet F) :
  len F (results F self) <> 0%nat ->
  apply F q (catalog self) s = (s1, Ok res) ->
  (len F res <> 0%nat ->
     Not F self q s
     = (s1, Ok (set_results F self (difference F (results F self) res))))
  /\ (len F res = 0%nat -> Not F self q s = (s1, Ok self)).
Proof.
  intros Hself Hq. apply Nat.eqb_neq in Hself.
  unfold Not, mbind, M_bind, truth. rewrite Hself, Hq. split.
  - intros Hn. apply Nat.eqb_neq in Hn. now rewrite Hn.
  - intros ->. reflexivity.
Qed.

(** X12.  The first [Or] on an accumulator built without a query seeds
    it: for a query with a non-empty result,
    [SearchQuery(catalog).Or(q)] is the accumulator
    [SearchQuery(catalog, q)].  (The family's [Set()] must have
    length 0.) *)
Theorem Or_seeds (q : Query) c s s1 (res : IFSet F) :
  len F (IF_Set F) = 0%nat ->
  apply F q c s = (s1, Ok res) ->
  len F res <> 0%nat ->
  (acc ← __init__ F c None; Or F acc q) s = __init__ F c (Some q) s.
Proof.
  intros Hset Hq Hres. apply Nat.eqb_neq in Hres.
  simpl. unfold mbind, M_bind, mret, M_ret, Or, truth, results. simpl.
  unfold mbind, M_bind. now rewrite Hq, Hres, Hset.
Qed.

End EvaluationExtras.

(** * Properties of evaluation seen through recorded calls *)

Section RecordedCalls.

Import Recording.

Context (F : Family).

Implicit Types (t : Query) (c : gmap string (@Index (list call) F)).

(** X13.  With indexes that record their calls, the calls made by an
    evaluation are leaves of the tree, taken in left-to-right order and
    each at most once: the log grows by a sublist of the leaves' calls,
    whatever the outcome. *)
Theorem apply_calls_sublist t : forall c log,
  all_recording F c ->
  exists calls,
    (apply F t c log).1 = log ++ calls
    /\ calls `sublist_of` leaf_calls t.
Proof.
  induction t as [k i v | k l IHl r IHr]; intros c log Hc; simpl.
  - unfold mbind, M_bind, get_index.
    destruct (c !! i) as [idx |] eqn:Hi.
    + destruct (Hc _ _ Hi) as [answer ->]. now exists [(i, k, v)].
    + exists []. simpl. rewrite app_nil_r. split; [reflexivity |].
      apply sublist_nil_l.
  - destruct (IHl c log Hc) as (cl & Hl & Hsl).
    destruct (apply F l c log) as [s1 [L | e]] eqn:El; simpl in Hl; subst s1.
    2: { exists cl. destruct k; simpl; unfold mbind, M_bind; rewrite El;
         (split; [reflexivity | now apply sublist_inserts_r]). }
    destruct (IHr c (log ++ cl) Hc) as (cr & Hr & Hsr).
    assert (Hshort : cl `sublist_of` leaf_calls l ++ leaf_calls r)
      by now apply sublist_inserts_r.
    assert (Hboth : cl ++ cr `sublist_of` leaf_calls l ++ leaf_calls r)
      by now apply sublist_app.
    destruct (apply F r c (log ++ cl)) as [s2 [R | e]] eqn:Er;
      simpl in Hr; subst s2;
      destruct k; simpl; unfold mbind, M_bind; rewrite El;
      try (destruct (len F L =? 0)%nat;
           [exists cl; split; [reflexivity | assumption] |]);
      rewrite Er; try destruct (len F R =? 0)%nat;
      exists (cl ++ cr); simpl; rewrite <- app_assoc; auto.
Qed.

(** X14.  A tree whose operators are all [Union] calls the index of every
    leaf, once and in left-to-right order, also when results are empty:
    [Union] has no short circuit. *)
Theorem Union_calls_every_leaf t : forall c log,
  all_recording F c ->
  only_union t = true ->
  (forall i, In i (index_names t) -> is_Some (c !! i)) ->
  exists R : IFSet F, apply F t c log = (log ++ leaf_calls t, Ok R).
Proof.
  induction t as [k i v | k l IHl r IHr]; intros c log Hc Hu Hin; simpl.
  - destruct (Hin i) as [idx Hi]; [now left |].
    destruct (Hc _ _ Hi) as [answer ->].
    unfold mbind, M_bind, get_index. rewrite Hi. now exists (answer k v).
  - destruct k; try discriminate Hu. simpl in Hu.
    apply andb_prop in Hu as [Hul Hur].
    destruct (IHl c log Hc Hul) as [L HL].
    { intros i Hi. apply Hin. simpl. apply in_or_app. now left. }
    destruct (IHr c (log ++ leaf_calls l) Hc Hur) as [R HR].
    { intros i Hi. apply Hin. simpl. apply in_or_app. now right. }
    unfold mbind, M_bind. rewrite HL, HR, <- app_assoc. eauto.
Qed.

End RecordedCalls.

Section ExtrasOnSamples.

Import Recording.

#[local] Abbreviation F := WeightedSet.family.

#[local] Existing Instance M_bind.

Lemma sample_catalog_recording : all_recording F sample_catalog.
Proof.
  intros i idx H. unfold sample_catalog in H.
  apply lookup_singleton_Some in H as [<- <-]. now eexists.
Qed.

(** An index the tree does not name may be added to the catalog. *)
Lemma apply_catalog_local_witness :
  apply F (Intersection (Eq "idx" (PNum 1)) (Eq "idx" (PNum 2)))
    sample_catalog []
  = apply F (Intersection (Eq "idx" (PNum 1)) (Eq "idx" (PNum 2)))
      (<["other" := index F "other" sample_answer]> sample_catalog) [].
Proof.
  apply apply_catalog_local. intros i Hi. simpl in Hi.
  destruct Hi as [<- | [<- | []]]; reflexivity.
Defined.

Lemma apply_missing_index_witness :
  apply F (Intersection (Eq "nope" (PNum 1)) (Eq "idx" (PNum 1)))
    sample_catalog []
  = ([], Raise (KeyError "nope")).
Proof.
  apply (apply_missing_index F
           (Intersection (Eq "nope" (PNum 1)) (Eq "idx" (PNum 1)))
           sample_catalog []).
  reflexivity.
Defined.

Lemma Operator_raises_witness :
  apply F (Difference (Eq "nope" (PNum 1)) (Eq "idx" (PNum 1)))
      sample_catalog []
    = ([], Raise (KeyError "nope"))
  /\ apply F (Union (Eq "idx" (PNum 7)) (Eq "nope" (PNum 1)))
       sample_catalog []
     = ([("idx", KEq, PNum 7)], Raise (KeyError "nope")).
Proof.
  split.
  - apply (proj1 (Operator_raises F KDifference (Eq "nope" (PNum 1))
                    (Eq "idx" (PNum 1)) sample_catalog [] [] []
                    (KeyError "nope") [])).
    reflexivity.
  - apply (proj2 (Operator_raises F KUnion (Eq "idx" (PNum 7))
                    (Eq "nope" (PNum 1)) sample_catalog []
                    [("idx", KEq, PNum 7)] [("idx", KEq, PNum 7)]
                    (KeyError "nope") []));
      [reflexivity | now left | reflexivity].
Defined.

Lemma apply_short_spine_witness :
  exists R : WeightedSet.t,
    apply F (Intersection (Difference (Eq "idx" (PNum 7)) (Eq "idx" (PNum 1)))
               (Eq "idx" (PNum 2)))
      sample_catalog []
    = ([("idx", KEq, PNum 7)], Ok R)
    /\ length R = 0%nat.
Proof.
  destruct (apply_short_spine F
              (Intersection
                 (Difference (Eq "idx" (PNum 7)) (Eq "idx" (PNum 1)))
                 (Eq "idx" (PNum 2)))
              sample_catalog [] [("idx", KEq, PNum 7)] []
              eq_refl eq_refl eq_refl eq_refl) as (R & H & Hlen & _).
  exists R. now split.
Defined.

Lemma Or_cases_witness :
  Or F sample_full (Eq "idx" (PNum 7)) []
    = ([("idx", KEq, PNum 7)], Ok sample_full)
  /\ Or F sample_empty (Eq "idx" (PNum 3)) []
     = ([("idx", KEq, PNum 3)],
        Ok (set_results F sample_empty [(3, 1)]%Z))
  /\ Or F sample_full (Eq "idx" (PNum 2)) []
     = ([("idx", KEq, PNum 2)],
        Ok (set_results F sample_full [(1, 1); (2, 2); (3, 2); (4, 1)]%Z)).
Proof.
  split; [| split].
  - apply (proj1 (Or_cases F sample_full (Eq "idx" (PNum 7)) []
                    [("idx", KEq, PNum 7)] [] eq_refl)).
    reflexivity.
  - apply (proj1 (proj2 (Or_cases F sample_empty (Eq "idx" (PNum 3)) []
                           [("idx", KEq, PNum 3)] [(3, 1)]%Z eq_refl)
                    ltac:(discriminate))).
    reflexivity.
  - apply (proj2 (proj2 (Or_cases F sample_full (Eq "idx" (PNum 2)) []
                           [("idx", KEq, PNum 2)] [(2, 1); (3, 1); (4, 1)]%Z
                           eq_refl)
                    ltac:(discriminate))).
    discriminate.
Defined.

Lemma Not_nonempty_witness :
  Not F sample_full (Eq "idx" (PNum 2)) []
    = ([("idx", KEq, PNum 2)], Ok (set_results F sample_full [(1, 1)]%Z))
  /\ Not F sample_full (Eq "idx" (PNum 7)) []
     = ([("idx", KEq, PNum 7)], Ok sample_full).
Proof.
  split.
  - apply (proj1 (Not_nonempty F sample_full (Eq "idx" (PNum 2)) []
                    [("idx", KEq, PNum 2)] [(2, 1); (3, 1); (4, 1)]%Z
                    ltac:(discriminate) eq_refl)).
    discriminate.
  - apply (proj2 (Not_nonempty F sample_full (Eq "idx" (PNum 7)) []
                    [("idx", KEq, PNum 7)] []
                    ltac:(discriminate) eq_refl)).
    reflexivity.
Defined.

Lemma Or_seeds_witness :
  (acc ← __init__ F sample_catalog None; Or F acc (Eq "idx" (PNum 1))) []
  = __init__ F sample_catalog (Some (Eq "idx" (PNum 1))) [].
Proof.
  apply (Or_seeds F (Eq "idx" (PNum 1)) sample_catalog []
           [("idx", KEq, PNum 1)] [(1, 1); (2, 1); (3, 1)]%Z);
    [reflexivity | reflexivity | discriminate].
Defined.

Lemma apply_calls_sublist_witness :
  exists calls,
    (apply F (Union (Intersection (Eq "idx" (PNum 7)) (Eq "idx" (PNum 1)))
                (Eq "idx" (PNum 2)))
       sample_catalog []).1 = [] ++ calls
    /\ calls `sublist_of` [("idx", KEq, PNum 7); ("idx", KEq, PNum 1);
                           ("idx", KEq, PNum 2)].
Proof.
  apply (apply_calls_sublist F
           (Union (Intersection (Eq "idx" (PNum 7)) (Eq "idx" (PNum 1)))
              (Eq "idx" (PNum 2)))
           sample_catalog []).
  exact sample_catalog_recording.
Defined.

Lemma Union_calls_every_leaf_witness :
  exists R : WeightedSet.t,
    apply F (Union (Union (Eq "idx" (PNum 7)) (Eq "idx" (PNum 1)))
               (Eq "idx" (PNum 2)))
      sample_catalog []
    = ([("idx", KEq, PNum 7); ("idx", KEq, PNum 1); ("idx", KEq, PNum 2)],
       Ok R).
Proof.
  apply (Union_calls_every_leaf F
           (Union (Union (Eq "idx" (PNum 7)) (Eq "idx" (PNum 1)))
              (Eq "idx" (PNum 2)))
           sample_catalog []).
  - exact sample_catalog_recording.
  - reflexivity.
  - intros i Hi. simpl in Hi.
    destruct Hi as [<- | [<- | [<- | []]]]; now eexists.
Defined.

End ExtrasOnSamples.

(** * Further properties of the compiler *)

Section VisitExtras.

Import Combinators Compiler.

Variable names : gmap string pyval.

Lemma visit_operator_of op k :
  operator_of op = Some k -> visit names op = Ok (POpClass k).
Proof. destruct op; try discriminate; now intros [= <-]. Qed.

Lemma visit_comparator_of op k :
  comparator_of op = Some k -> visit names op = Ok (PCmpClass k).
Proof. destruct op; try discriminate; now intros [= <-]. Qed.

Lemma visit_BinOp_children l op r vl vr k :
  operator_of op = Some k ->
  visit names l = Ok vl -> visit names r = Ok vr ->
  visit names (ast.BinOp l op r) = process_BinOp [vl; POpClass k; vr].
Proof.
  intros Hop Hl Hr. simpl. unfold mbind, result_bind.
  now rewrite Hl, (visit_operator_of _ _ Hop), Hr.
Qed.

(** X15.  A binary set operator ([|], [&], [-]) over two operands that
    are visited without error builds the operator over the two queries;
    a left operand that is not a query is reported as the left operand
    (whatever the right one is), and a right operand that is not a query
    as the right operand, each time with the operator's class name. *)
Theorem visit_BinOp_operands l op r vl vr k :
  operator_of op = Some k ->
  visit names l = Ok vl -> visit names r = Ok vr ->
  (forall lq rq, vl = PQuery lq -> vr = PQuery rq ->
     visit names (ast.BinOp l op r) = Ok (PQuery (Operator k lq rq)))
  /\ (is_Query vl = false ->
      visit names (ast.BinOp l op r)
      = Raise (ValueError ("Bad expression: left operand for "
                           ++ class_name_of_op k
                           ++ " must be a result set.")))
  /\ (is_Query vl = true -> is_Query vr = false ->
      visit names (ast.BinOp l op r)
      = Raise (ValueError ("Bad expression: right operand for "
                           ++ class_name_of_op k
                           ++ " must be a result set."))).
Proof.
  intros Hop Hl Hr. rewrite (visit_BinOp_children _ _ _ _ _ _ Hop Hl Hr).
  repeat split.
  - now intros lq rq -> ->.
  - intros H. destruct vl; try discriminate H; now destruct vr.
  - intros H1 H2. destruct vl; try discriminate H1.
    now destruct vr; try discriminate H2.
Qed.

Lemma as_queries_map qs : as_queries (map PQuery qs) = Some qs.
Proof. induction qs as [| q qs IH]; simpl; [| rewrite IH]; reflexivity. Qed.

Lemma as_queries_None vs :
  (exists v, In v vs /\ is_Query v = false) -> as_queries vs = None.
Proof.
  intros (v & Hin & Hv). induction vs as [| x vs IH]; [destruct Hin |].
  destruct Hin as [-> | Hin].
  - now destruct v.
  - simpl. destruct x; try reflexivity. now rewrite (IH Hin).
Qed.

Lemma fold_operator_fold_left k rest : forall acc,
  fold_operator (POpClass k) acc rest
  = Ok (fold_left (Operator k) rest acc).
Proof.
  induction rest as [| c rest IH]; intros acc; simpl; [reflexivity |].
  unfold mbind, result_bind. apply IH.
Qed.

Lemma visit_BoolOp_children op values vs k :
  operator_of op = Some k ->
  visit_list names values = Ok vs ->
  visit names (ast.BoolOp op values) = process_BoolOp (POpClass k :: vs).
Proof.
  intros Hop Hvs. rewrite visit_unfold. simpl. unfold mbind, result_bind.
  now rewrite (visit_operator_of _ _ Hop), Hvs.
Qed.

Lemma process_BoolOp_fold k a b rest :
  process_BoolOp (POpClass k :: map PQuery (a :: b :: rest))
  = Ok (PQuery (fold_left (Operator k) rest (Operator k a b))).
Proof.
  unfold process_BoolOp. rewrite as_queries_map. simpl.
  unfold mbind, result_bind. now rewrite fold_operator_fold_left.
Qed.

(** X16.  A boolean operator over two or more operands that all compile
    to queries builds the left-folded chain of its operator class:
    [q1 and q2 and ... and qn] is
    [Intersection(...Intersection(Intersection(q1, q2), q3)..., qn)],
    and likewise [or] with [Union]. *)
Theorem visit_BoolOp_fold op k values a b rest :
  operator_of op = Some k ->
  visit_list names values = Ok (map PQuery (a :: b :: rest)) ->
  visit names (ast.BoolOp op values)
  = Ok (PQuery (fold_left (Operator k) rest (Operator k a b))).
Proof.
  intros Hop Hvs. rewrite (visit_BoolOp_children _ _ _ _ Hop Hvs).
  apply process_BoolOp_fold.
Qed.

(** X17.  A boolean operator with an operand that compiles to something
    that is not a query is rejected with a [ValueError] naming the
    operator's class, whatever the other operands are. *)
Theorem visit_BoolOp_bad_operand op k values vs :
  operator_of op = Some k ->
  visit_list names values = Ok vs ->
  (exists v, In v vs /\ is_Query v = false) ->
  visit names (ast.BoolOp op values)
  = Raise (ValueError ("Bad expression: All operands for "
                       ++ class_name_of_op k ++ " must be result sets.")).
Proof.
  intros Hop Hvs Hbad. rewrite (visit_BoolOp_children _ _ _ _ Hop Hvs).
  unfold process_BoolOp. now rewrite (as_queries_None _ Hbad).
Qed.

(** X18.  A node whose class has no processor is rejected with a
    [ValueError] that names the class, once its children have been
    visited without error. *)
Theorem visit_unhandled class_name children vs :
  visit_list names children = Ok vs ->
  visit names (ast.Other class_name children)
  = Raise (ValueError
             ("Unable to parse expression.  Unhandled expression element: "
              ++ class_name)).
Proof.
  intros H. rewrite visit_unfold. simpl. unfold mbind, result_bind.
  now rewrite H.
Qed.

(** X19.  Errors surface bottom-up and left to right: when a child of
    a node raises while the children before it were visited without
    error, visiting the node raises that same exception, whatever the
    node's class and whatever comes after the child. *)
Theorem visit_child_error (n : ast.node) pre child post vs e :
  ast.iter_child_nodes n = pre ++ child :: post ->
  visit_list names pre = Ok vs ->
  visit names child = Raise e ->
  visit names n = Raise e.
Proof.
  intros Hn Hpre Hc. rewrite visit_unfold, Hn, visit_list_app.
  unfold mbind, result_bind. rewrite Hpre. simpl.
  unfold mbind, result_bind. now rewrite Hc.
Qed.

Lemma resolve_names_resolved vs :
  (forall id, In (PName id) vs -> is_Some (names !! id)) ->
  exists vs', resolve_names names vs = Ok vs'
              /\ Forall2 (resolved names) vs vs'.
Proof.
  induction vs as [| v vs IH]; intros H.
  - exists []. split; [reflexivity | constructor].
  - destruct IH as (vs' & Hvs & HF).
    { intros id Hid. apply H. now right. }
    simpl. unfold mbind, result_bind.
    assert (Hv : exists v', (match v with
                             | PName _ => _value names v
                             | _ => Ok v
                             end) = Ok v' /\ resolved names v v').
    { destruct v; try (eexists; split; reflexivity).
      destruct (H id) as [v' Hv']; [now left |].
      exists v'. simpl. now rewrite Hv'. }
    destruct Hv as (v' & -> & Hres). rewrite Hvs.
    exists (v' :: vs'). split; [reflexivity | now constructor].
Qed.

Lemma resolve_names_undefined pre id post :
  (forall id', In (PName id') pre -> is_Some (names !! id')) ->
  names !! id = None ->
  resolve_names names (pre ++ PName id :: post) = Raise (NameError id).
Proof.
  intros Hpre Hid. induction pre as [| v pre IH]; simpl.
  - unfold mbind, result_bind. now rewrite Hid.
  - unfold mbind, result_bind.
    rewrite IH by (intros id' H; apply Hpre; now right).
    destruct v; try reflexivity.
    destruct (Hpre id0) as [v' Hv']; [now left |].
    simpl. now rewrite Hv'.
Qed.

Lemma visit_List_children elts vs :
  visit_list names elts = Ok vs ->
  visit names (ast.List elts ast.Load) = PList <$> resolve_names names vs
  /\ visit names (ast.Tuple elts ast.Load)
     = PTuple <$> resolve_names names vs.
Proof.
  intros H. rewrite !visit_unfold. simpl. rewrite visit_list_app, H.
  simpl. unfold dispatch. simpl. unfold process_List.
  now rewrite removelast_last.
Qed.

(** X20.  A list or tuple literal whose elements are visited without
    error compiles, when every bare name among them is bound in the name
    table, to a list (tuple) of the same length in which each bare name
    is replaced by its binding and every other element is kept. *)
Theorem visit_List_resolves elts vs :
  visit_list names elts = Ok vs ->
  (forall id, In (PName id) vs -> is_Some (names !! id)) ->
  exists vs',
    visit names (ast.List elts ast.Load) = Ok (PList vs')
    /\ visit names (ast.Tuple elts ast.Load) = Ok (PTuple vs')
    /\ Forall2 (resolved names) vs vs'.
Proof.
  intros Hvs Hnames.
  destruct (visit_List_children _ _ Hvs) as [HL HT].
  destruct (resolve_names_resolved _ Hnames) as (vs' & Hres & HF).
  exists vs'. rewrite HL, HT, Hres. auto.
Qed.

(** X21.  A list or tuple literal with an unbound bare name among its
    elements raises [NameError] for the first such name. *)
Theorem visit_List_undefined elts pre id post :
  visit_list names elts = Ok (pre ++ PName id :: post) ->
  (forall id', In (PName id') pre -> is_Some (names !! id')) ->
  names !! id = None ->
  visit names (ast.List elts ast.Load) = Raise (NameError id)
  /\ visit names (ast.Tuple elts ast.Load) = Raise (NameError id).
Proof.
  intros Hvs Hpre Hid.
  destruct (visit_List_children _ _ Hvs) as [HL HT].
  now rewrite HL, HT, (resolve_names_undefined _ _ _ Hpre Hid).
Qed.

(** X22.  The value operand of a comparison is looked up in the name
    table when it is a bare name: a bound name gives the comparator over
    its binding, an unbound one raises [NameError] with the name.  The
    value is the right operand of an ordinary comparison and the left
    operand of a membership test. *)
Theorem visit_Compare_value_name op k i v :
  comparator_of op = Some k ->
  (k <> KContains ->
     visit names (ast.Compare (ast.Name i ast.Load) [op]
                    [ast.Name v ast.Load])
     = match names !! v with
       | Some val => Ok (PQuery (Comparator k i val))
       | None => Raise (NameError v)
       end)
  /\ (k = KContains ->
      visit names (ast.Compare (ast.Name v ast.Load) [op]
                     [ast.Name i ast.Load])
      = match names !! v with
        | Some val => Ok (PQuery (Contains i val))
        | None => Raise (NameError v)
        end).
Proof.
  intros Hop. split; intros Hk; simpl; unfold mbind, result_bind;
    rewrite (visit_comparator_of _ _ Hop); simpl;
    destruct k; try congruence; unfold dispatch; simpl;
    unfold mbind, result_bind; now destruct (names !! v).
Qed.

End VisitExtras.

Section ParseQueryExtras.

Import Combinators Compiler.

Variable ast_parse : string -> result (list ast.node).
Variable names : option (gmap string pyval).

Lemma parse_query_Expr expr n :
  ast_parse expr = Ok [ast.Expr n] ->
  parse_query ast_parse expr names
  = (query ← visit (default_names names) n;
     Ok (match query with
         | PQuery q => PQuery (_group_any_and_all q)
         | v => v
         end)).
Proof. intros H. unfold parse_query, _AstQuery. now rewrite H. Qed.

(** X23.  A text without any statement (Python parses the empty text and
    a text of comments to an empty body) is rejected with [IndexError],
    and an exception of the parser, [SyntaxError] on text that is not
    Python, is passed on unchanged. *)
Theorem parse_query_no_statement expr :
  (ast_parse expr = Ok [] ->
     parse_query ast_parse expr names
     = Raise (IndexError "list index out of range"))
  /\ (forall e, ast_parse expr = Raise e ->
        parse_query ast_parse expr names = Raise e).
Proof.
  unfold parse_query, _AstQuery. split.
  - now intros ->.
  - now intros e ->.
Qed.

(** X24.  The compiler does not check that the expression is a query: a
    text that is one string or number literal compiles to that value, and
    a text that is one bare name to the name node, not looked up. *)
Theorem parse_query_not_a_query expr :
  (forall n v, ast_parse expr = Ok [ast.Expr n] ->
     literal_value n = Some v ->
     parse_query ast_parse expr names = Ok v)
  /\ (forall id, ast_parse expr = Ok [ast.Expr (ast.Name id ast.Load)] ->
        parse_query ast_parse expr names = Ok (PName id)).
Proof.
  split.
  - intros n v H Hv. rewrite (parse_query_Expr _ _ H).
    destruct n; try discriminate Hv; now injection Hv as <-.
  - intros id H. now rewrite (parse_query_Expr _ _ H).
Qed.

Lemma visit_list_cons nm c cs :
  visit_list nm (c :: cs)
  = (x ← visit nm c; xs ← visit_list nm cs; Ok (x :: xs)).
Proof. reflexivity. Qed.

Lemma visit_eq_compare nm i n v :
  literal_value n = Some v ->
  visit nm (ast.Compare (ast.Name i ast.Load) [ast.Eq] [n])
  = Ok (PQuery (Eq i v)).
Proof. destruct n; try discriminate; now intros [= <-]. Qed.

Lemma visit_list_eq_compares nm i lits vals :
  Forall2 (fun n v => literal_value n = Some v) lits vals ->
  visit_list nm
    (map (fun n => ast.Compare (ast.Name i ast.Load) [ast.Eq] [n]) lits)
  = Ok (map PQuery (map (Eq i) vals)).
Proof.
  induction 1 as [| n v lits vals Hn _ IH]; [reflexivity |].
  rewrite !map_cons, visit_list_cons, (visit_eq_compare _ _ _ _ Hn), IH.
  reflexivity.
Qed.

Lemma all_eq_on_fold_left i k vals : forall acc,
  all_eq_on i acc = true ->
  all_eq_on i (fold_left (Operator k) (map (Eq i) vals) acc) = true.
Proof.
  induction vals as [| v vals IH]; intros acc H; simpl; [assumption |].
  apply IH. simpl. rewrite H. now rewrite bool_decide_eq_true_2.
Qed.

Lemma leaf_values_fold_left i k vals : forall acc,
  leaf_values (fold_left (Operator k) (map (Eq i) vals) acc)
  = leaf_values acc ++ vals.
Proof.
  induction vals as [| v vals IH]; intros acc; simpl.
  - now rewrite app_nil_r.
  - rewrite IH. simpl. now rewrite <- app_assoc.
Qed.

Lemma fold_left_root k rest : forall a b,
  exists x y, fold_left (Operator k) rest (Operator k a b) = Operator k x y.
Proof.
  induction rest as [| c rest IH]; intros a b; simpl; eauto.
Qed.

(** X25.  Compiling and optimizing together: a text that Python parses
    as [i == v1 and i == v2 and ... and i == vn] with two or more
    literals compiles to the single comparator [All(i, [v1, ..., vn])],
    and the same text with [or] to [Any(i, [v1, ..., vn])]. *)
Theorem parse_query_batches expr op i lits vals :
  ast_parse expr
    = Ok [ast.Expr
            (ast.BoolOp op
               (map (fun n => ast.Compare (ast.Name i ast.Load) [ast.Eq] [n])
                  lits))] ->
  Forall2 (fun n v => literal_value n = Some v) lits vals ->
  (2 <= length lits)%nat ->
  (op = ast.And ->
     parse_query ast_parse expr names = Ok (PQuery (All i (PList vals))))
  /\ (op = ast.Or ->
      parse_query ast_parse expr names = Ok (PQuery (Any i (PList vals)))).
Proof.
  intros Hparse Hlits Hlen.
  rewrite (Forall2_length _ _ _ Hlits) in Hlen.
  destruct vals as [| a [| b rest]]; simpl in Hlen; try lia.
  apply (visit_list_eq_compares (default_names names) i) in Hlits.
  assert (Hfold : forall k,
    _group_any_and_all
      (fold_left (Operator k) (map (Eq i) rest) (Operator k (Eq i a) (Eq i b)))
    = group
        (fold_left (Operator k) (map (Eq i) rest)
           (Operator k (Eq i a) (Eq i b)))
        (Some i) (a :: b :: rest)).
  { intros k. unfold _group_any_and_all.
    rewrite (visit_all_eq_on i).
    - now rewrite leaf_values_fold_left.
    - apply all_eq_on_fold_left. simpl.
      now rewrite bool_decide_eq_true_2. }
  split; intros ->; rewrite (parse_query_Expr _ _ Hparse).
  - rewrite (visit_BoolOp_children _ ast.And _ _ KIntersection eq_refl Hlits).
    change (map PQuery (map (Eq i) (a :: b :: rest)))
      with (map PQuery (Eq i a :: Eq i b :: map (Eq i) rest)).
    rewrite process_BoolOp_fold.
    simpl. rewrite Hfold.
    destruct (fold_left_root KIntersection (map (Eq i) rest) (Eq i a) (Eq i b))
      as (x & y & ->).
    reflexivity.
  - rewrite (visit_BoolOp_children _ ast.Or _ _ KUnion eq_refl Hlits).
    change (map PQuery (map (Eq i) (a :: b :: rest)))
      with (map PQuery (Eq i a :: Eq i b :: map (Eq i) rest)).
    rewrite process_BoolOp_fold.
    simpl. rewrite Hfold.
    destruct (fold_left_root KUnion (map (Eq i) rest) (Eq i a) (Eq i b))
      as (x & y & ->).
    reflexivity.
Qed.

End ParseQueryExtras.

Section CompilerExtrasOnSamples.

Import Combinators Compiler Samples MoreSamples.

(** [(a == 1) | (b > 2)], and [1 | (b > 2)]. *)
Lemma visit_BinOp_operands_witness :
  visit sample_names
    (ast.BinOp (compare (name "a") ast.Eq (ast.Num 1)) ast.BitOr
       (compare (name "b") ast.Gt (ast.Num 2)))
    = Ok (PQuery (Union (Eq "a" (PNum 1)) (Gt "b" (PNum 2))))
  /\ visit sample_names
       (ast.BinOp (ast.Num 1) ast.BitOr
          (compare (name "b") ast.Gt (ast.Num 2)))
     = Raise (ValueError
                "Bad expression: left operand for Union must be a result set.")
  /\ visit sample_names
       (ast.BinOp (compare (name "a") ast.Eq (ast.Num 1)) ast.Sub (ast.Num 1))
     = Raise (ValueError
                "Bad expression: right operand for Difference must be a result set.").
Proof.
  split; [| split].
  - apply (proj1 (visit_BinOp_operands sample_names
                    (compare (name "a") ast.Eq (ast.Num 1)) ast.BitOr
                    (compare (name "b") ast.Gt (ast.Num 2))
                    (PQuery (Eq "a" (PNum 1))) (PQuery (Gt "b" (PNum 2)))
                    KUnion eq_refl eq_refl eq_refl));
      reflexivity.
  - apply (proj1 (proj2 (visit_BinOp_operands sample_names
                           (ast.Num 1) ast.BitOr
                           (compare (name "b") ast.Gt (ast.Num 2))
                           (PNum 1) (PQuery (Gt "b" (PNum 2)))
                           KUnion eq_refl eq_refl eq_refl)));
      reflexivity.
  - apply (proj2 (proj2 (visit_BinOp_operands sample_names
                           (compare (name "a") ast.Eq (ast.Num 1)) ast.Sub
                           (ast.Num 1)
                           (PQuery (Eq "a" (PNum 1))) (PNum 1)
                           KDifference eq_refl eq_refl eq_refl)));
      reflexivity.
Defined.

(** [a == 1 and b == 2 and c == 3] *)
Lemma visit_BoolOp_fold_witness :
  visit sample_names
    (ast.BoolOp ast.And
       [compare (name "a") ast.Eq (ast.Num 1);
        compare (name "b") ast.Eq (ast.Num 2);
        compare (name "c") ast.Eq (ast.Num 3)])
  = Ok (PQuery
          (Intersection (Intersection (Eq "a" (PNum 1)) (Eq "b" (PNum 2)))
             (Eq "c" (PNum 3)))).
Proof.
  apply (visit_BoolOp_fold sample_names ast.And KIntersection
           [compare (name "a") ast.Eq (ast.Num 1);
            compare (name "b") ast.Eq (ast.Num 2);
            compare (name "c") ast.Eq (ast.Num 3)]
           (Eq "a" (PNum 1)) (Eq "b" (PNum 2)) [Eq "c" (PNum 3)]);
    reflexivity.
Defined.

(** [a == 1 and 5] *)
Lemma visit_BoolOp_bad_operand_witness :
  visit sample_names
    (ast.BoolOp ast.And [compare (name "a") ast.Eq (ast.Num 1); ast.Num 5])
  = Raise (ValueError
             "Bad expression: All operands for Intersection must be result sets.").
Proof.
  apply (visit_BoolOp_bad_operand sample_names ast.And KIntersection
           [compare (name "a") ast.Eq (ast.Num 1); ast.Num 5]
           [PQuery (Eq "a" (PNum 1)); PNum 5]);
    [reflexivity | reflexivity |].
  exists (PNum 5). split; [simpl; auto | reflexivity].
Defined.

(** A call [f(1)], seen as a node of class [Call] over its children. *)
Lemma visit_unhandled_witness :
  visit sample_names (ast.Other "Call" [name "f"; ast.Num 1])
  = Raise (ValueError
             "Unable to parse expression.  Unhandled expression element: Call").
Proof.
  apply (visit_unhandled sample_names "Call" [name "f"; ast.Num 1]
           [PName "f"; PNum 1]).
  reflexivity.
Defined.

(** [(idx1 == 1) + (idx2 == 2)]: the operator [+] has no processor. *)
Lemma visit_child_error_witness :
  visit sample_names
    (ast.BinOp (compare (name "idx1") ast.Eq (ast.Num 1))
       (ast.Other "Add" [])
       (compare (name "idx2") ast.Eq (ast.Num 2)))
  = Raise (ValueError
             "Unable to parse expression.  Unhandled expression element: Add").
Proof.
  apply (visit_child_error sample_names
           (ast.BinOp (compare (name "idx1") ast.Eq (ast.Num 1))
              (ast.Other "Add" [])
              (compare (name "idx2") ast.Eq (ast.Num 2)))
           [compare (name "idx1") ast.Eq (ast.Num 1)]
           (ast.Other "Add" [])
           [compare (name "idx2") ast.Eq (ast.Num 2)]
           [PQuery (Eq "idx1" (PNum 1))]);
    reflexivity.
Defined.

(** [[1, x, 's']] and [(1, x, 's')] with [x] bound to 5. *)
Lemma visit_List_resolves_witness :
  exists vs',
    visit sample_names
      (ast.List [ast.Num 1; name "x"; ast.Str "s"] ast.Load)
    = Ok (PList vs')
    /\ visit sample_names
         (ast.Tuple [ast.Num 1; name "x"; ast.Str "s"] ast.Load)
       = Ok (PTuple vs')
    /\ Forall2 (resolved sample_names) [PNum 1; PName "x"; PStr "s"] vs'.
Proof.
  apply (visit_List_resolves sample_names
           [ast.Num 1; name "x"; ast.Str "s"]
           [PNum 1; PName "x"; PStr "s"]); [reflexivity |].
  intros id Hid. simpl in Hid.
  destruct Hid as [Hid | [Hid | [Hid | []]]]; try discriminate Hid.
  injection Hid as <-. now eexists.
Defined.

(** [[x, y, z]] with only [x] bound. *)
Lemma visit_List_undefined_witness :
  visit sample_names (ast.List [name "x"; name "y"; name "z"] ast.Load)
    = Raise (NameError "y")
  /\ visit sample_names (ast.Tuple [name "x"; name "y"; name "z"] ast.Load)
     = Raise (NameError "y").
Proof.
  apply (visit_List_undefined sample_names
           [name "x"; name "y"; name "z"] [PName "x"] "y" [PName "z"]);
    [reflexivity | | reflexivity].
  intros id Hid. simpl in Hid. destruct Hid as [Hid | []].
  injection Hid as <-. now eexists.
Defined.

(** [idx >= x] with [x] bound, [idx >= y] with [y] unbound, [x in idx]. *)
Lemma visit_Compare_value_name_witness :
  visit sample_names (compare (name "idx") ast.GtE (name "x"))
    = Ok (PQuery (Ge "idx" (PNum 5)))
  /\ visit sample_names (compare (name "idx") ast.GtE (name "y"))
     = Raise (NameError "y")
  /\ visit sample_names (compare (name "x") ast.In (name "idx"))
     = Ok (PQuery (Contains "idx" (PNum 5))).
Proof.
  split; [| split].
  - apply (proj1 (visit_Compare_value_name sample_names ast.GtE KGe
                    "idx" "x" eq_refl)).
    discriminate.
  - apply (proj1 (visit_Compare_value_name sample_names ast.GtE KGe
                    "idx" "y" eq_refl)).
    discriminate.
  - apply (proj2 (visit_Compare_value_name sample_names ast.In KContains
                    "idx" "x" eq_refl)).
    reflexivity.
Defined.

Lemma parse_query_no_statement_witness :
  parse_query more_parse "" None
    = Raise (IndexError "list index out of range")
  /\ parse_query more_parse "idx ==" None
     = Raise (SyntaxError "invalid syntax").
Proof.
  split.
  - apply (proj1 (parse_query_no_statement more_parse None "")).
    reflexivity.
  - apply (proj2 (parse_query_no_statement more_parse None "idx ==")).
    reflexivity.
Defined.

Lemma parse_query_not_a_query_witness :
  parse_query more_parse "'abc'" None = Ok (PStr "abc")
  /\ parse_query more_parse "idx" (Some sample_names) = Ok (PName "idx").
Proof.
  split.
  - apply (proj1 (parse_query_not_a_query more_parse None "'abc'")
             (ast.Str "abc")); reflexivity.
  - apply (proj2 (parse_query_not_a_query more_parse (Some sample_names)
                    "idx")).
    reflexivity.
Defined.

Lemma parse_query_batches_witness :
  parse_query more_parse "a == 1 or a == 'b' or a == 3" None
  = Ok (PQuery (Any "a" (PList [PNum 1; PStr "b"; PNum 3]))).
Proof.
  apply (proj2 (parse_query_batches more_parse None
                  "a == 1 or a == 'b' or a == 3" ast.Or "a"
                  [ast.Num 1; ast.Str "b"; ast.Num 3]
                  [PNum 1; PStr "b"; PNum 3]
                  eq_refl
                  ltac:(repeat constructor)
                  ltac:(simpl; lia))).
  reflexivity.
Defined.

End CompilerExtrasOnSamples.
